(** * A verified model of the sudokusolver backtracking engine

    The repository holds one program in two variants.  [board.go] and
    [main.go] contain the sequential solver: [Solve] calls the recursive
    backtracker [solveInner], and [valuePossibleAt] counts its calls in the
    package variable [opsCnt].  The third source file is the goroutine
    variant: the same [Board] methods without the counter, the scan
    [findNextFieldNotSetAlready] as a method of its own, and a [Solve] that
    starts one goroutine per legal value of the first empty cell.

    The Go code is embedded as functions over an explicit program state,
    the board slice and [opsCnt].  A run returns a value and a new state,
    aborts with a run-time panic (an index out of range), or exhausts the
    fuel that bounds the recursion of the model. *)

From stdpp Require Import base numbers list strings.
From Stdlib Require Import Ascii DecimalString.

Open Scope Z_scope.

(** ** Go's [int]: 64-bit two's complement

    Indices and the counter are machine integers; [+] and [*] wrap around.
    The cells themselves are only compared and printed. *)

Module GoInt.

Definition min_int : Z := -9223372036854775808.   (* -2^63 *)
Definition max_int : Z := 9223372036854775807.    (* 2^63 - 1 *)

Definition is_int (z : Z) : Prop := min_int <= z <= max_int.

(** The representative of [z] modulo 2^64 in [min_int, max_int]. *)
Definition wrap (z : Z) : Z :=
  if (min_int <=? z) && (z <=? max_int) then z
  else (z - min_int) `mod` 18446744073709551616 + min_int.

Definition add (a b : Z) : Z := wrap (a + b).
Definition mul (a b : Z) : Z := wrap (a * b).
(** [/] truncates toward zero and [%] takes the sign of the dividend. *)
Definition quot (a b : Z) : Z := wrap (a `quot` b).
Definition rem (a b : Z) : Z := a `rem` b.

End GoInt.

(** ** Outcomes and program state *)

Inductive Result (A : Type) : Type :=
  | Ok (a : A)    (* the call returns *)
  | Panic         (* run-time panic: the program aborts *)
  | OutOfFuel.    (* the model ran out of fuel; no Go run ends so *)
Arguments Ok {A} a.
Arguments Panic {A}.
Arguments OutOfFuel {A}.

(** [type Board []int]: a slice of machine integers. *)
Abbreviation Board := (list Z).

Record State : Type := mkState {
  board : Board;   (* the receiver [b], mutated in place *)
  opsCnt : Z       (* [var opsCnt = 0] *)
}.

Definition M (A : Type) : Type := State -> Result (A * State).

Definition ret {A} (a : A) : M A := fun s => Ok (a, s).

Definition bind {A B} (m : M A) (k : A -> M B) : M B :=
  fun s => match m s with
           | Ok (a, s') => k a s'
           | Panic => Panic
           | OutOfFuel => OutOfFuel
           end.

Definition panic {A} : M A := fun _ => Panic.
Definition outOfFuel {A} : M A := fun _ => OutOfFuel.

Notation "x <- m ;; k" := (bind m (fun x => k))
  (at level 100, m at next level, right associativity).
Notation "m ;;; k" := (bind m (fun _ => k))
  (at level 100, right associativity).

(** [b[idx]] as an expression: panics outside [0, len(b)). *)
Definition load (idx : Z) : M Z :=
  fun s => if idx <? 0 then Panic
           else match board s !! Z.to_nat idx with
                | Some c => Ok (c, s)
                | None => Panic
                end.

(** [b[idx] = v]: panics outside [0, len(b)). *)
Definition store (idx v : Z) : M unit :=
  fun s => if idx <? 0 then Panic
           else match board s !! Z.to_nat idx with
                | Some _ => Ok (tt, mkState (<[Z.to_nat idx := v]> (board s)) (opsCnt s))
                | None => Panic
                end.

(** [opsCnt++] *)
Definition incrOpsCnt : M unit :=
  fun s => Ok (tt, mkState (board s) (GoInt.add (opsCnt s) 1)).

(** A counting loop [for i := lo; i < hi; i++ { body }] over the values
    [vals] of [i], whose body may leave the enclosing function with
    [return r] (the body yields [Some r]) or fall through to the next
    round ([None]).  The Go [range] loop over a slice literal has the same
    shape. *)
Fixpoint forEach {R} (vals : list Z) (body : Z -> M (option R)) : M (option R) :=
  match vals with
  | [] => ret None
  | i :: vals' =>
      r <- body i ;;
      match r with
      | Some x => ret (Some x)
      | None => forEach vals' body
      end
  end.

(** ** Board *)

Definition blockOffsets : list Z := [0; 1; 2; 9; 10; 11; 18; 19; 20].

Definition NewBoard : Board := replicate 81 0.

Definition Set_ (x y v : Z) : M unit :=
  let idx := GoInt.add x (GoInt.mul y 9) in
  if (idx <? 0) || (80 <? idx) then panic
  else store idx v.

Definition Get (x y : Z) : M Z :=
  let idx := GoInt.add x (GoInt.mul y 9) in
  if (idx <? 0) || (80 <? idx) then panic
  else load idx.

(** The body shared by the three membership loops of [valuePossibleAt]:
    [if b[at] == v { return false }]. *)
Definition returnFalseIfEq (v at_ : Z) : M (option bool) :=
  c <- load at_ ;;
  if c =? v then ret (Some false) else ret None.

Definition valuePossibleAt (v idx : Z) : M bool :=
  incrOpsCnt ;;;
  (* Check row *)
  let startOfRowIdx := GoInt.mul (GoInt.quot idx 9) 9 in
  r <- forEach (seqZ 0 9) (fun i => returnFalseIfEq v (GoInt.add startOfRowIdx i)) ;;
  match r with
  | Some x => ret x
  | None =>
    (* Check column *)
    let column := GoInt.rem idx 9 in
    r <- forEach (seqZ 0 9)
           (fun i => returnFalseIfEq v (GoInt.add column (GoInt.mul i 9))) ;;
    match r with
    | Some x => ret x
    | None =>
      (* Check block *)
      let row := GoInt.quot idx 9 in
      let topLeftIdx :=
        GoInt.add (GoInt.mul (GoInt.mul (GoInt.quot row 3) 3) 9)
                  (GoInt.mul (GoInt.quot column 3) 3) in
      r <- forEach blockOffsets
             (fun offset => returnFalseIfEq v (GoInt.add topLeftIdx offset)) ;;
      match r with
      | Some x => ret x
      | None => ret true
      end
    end
  end.

(** [strconv.Itoa] *)
Definition Itoa (z : Z) : string := NilZero.string_of_int (Z.to_int z).

(** The string of the escape [\n]. *)
Definition newline : string := String "010"%char EmptyString.

(** [String]: the loop appends to the builder [sb], threaded here as the
    accumulator. *)
Fixpoint String_loop (vals : list Z) (sb : string) : M string :=
  match vals with
  | [] => ret sb
  | i :: vals' =>
      let sb := if GoInt.rem i 9 =? 0 then sb +:+ newline else sb in
      c <- load i ;;
      let sb := sb +:+ Itoa c in
      let sb := sb +:+ " " in
      String_loop vals' sb
  end.

Definition String_ : M string :=
  sb <- String_loop (seqZ 0 81) "" ;;
  ret (sb +:+ newline).

(** [for idx < 81 && b[idx] != 0 { idx = idx + 1 }; return idx].  The
    condition is evaluated left to right, so [b[idx]] is read only when
    [idx < 81]. *)
Fixpoint findNextFieldNotSetAlready_loop (fuel : nat) (idx : Z) : M Z :=
  if idx <? 81 then
    c <- load idx ;;
    if negb (c =? 0) then
      match fuel with
      | O => outOfFuel
      | S fuel' => findNextFieldNotSetAlready_loop fuel' (GoInt.add idx 1)
      end
    else ret idx
  else ret idx.

(** A read at a negative index panics, so the loop runs at most 81 times. *)
Definition findNextFieldNotSetAlready (idx : Z) : M Z :=
  findNextFieldNotSetAlready_loop 81 idx.
Arguments findNextFieldNotSetAlready : simpl never.

(** ** Sequential backtracker

    [solveInner] is the same in both variants, but for the scan, which
    [board.go] writes out in place.  Each recursive call uses one unit of
    fuel. *)

(** One round of the candidate loop of [solveInner]; [rec] is the
    recursive call. *)
Definition tryValue (rec : Z -> M bool) (idx i : Z) : M (option bool) :=
  p <- valuePossibleAt i idx ;;
  if p then
    store idx i ;;;
    ok <- rec (GoInt.add idx 1) ;;
    if ok then ret (Some true) else ret None
  else ret None.

Fixpoint solveInner (fuel : nat) (idx : Z) : M bool :=
  match fuel with
  | O => outOfFuel
  | S fuel' =>
      (* Find next field not being set already *)
      idx <- findNextFieldNotSetAlready idx ;;
      if idx =? 81 then
        (* All fields are set, we found a solution for this puzzle *)
        ret true
      else
        (* Iterate over all possible values for this field *)
        r <- forEach (seqZ 1 9) (tryValue (solveInner fuel') idx) ;;
        match r with
        | Some x => ret x
        | None =>
            (* Reset field for backtracking *)
            store idx 0 ;;;
            ret false
        end
  end.

Definition exampleBoard : Board :=
  [5; 3; 0; 0; 7; 0; 0; 0; 0;
   6; 0; 0; 1; 9; 5; 0; 0; 0;
   0; 9; 8; 0; 0; 0; 0; 6; 0;
   8; 0; 0; 0; 6; 0; 0; 0; 3;
   4; 0; 0; 8; 0; 3; 0; 0; 1;
   7; 0; 0; 0; 2; 0; 0; 0; 6;
   0; 6; 0; 0; 0; 0; 2; 8; 0;
   0; 0; 0; 4; 1; 9; 0; 0; 5;
   0; 0; 0; 0; 8; 0; 0; 7; 9].

Definition solvedExampleBoard : Board :=
  [5; 3; 4; 6; 7; 8; 9; 1; 2;
   6; 7; 2; 1; 9; 5; 3; 4; 8;
   1; 9; 8; 3; 4; 2; 5; 6; 7;
   8; 5; 9; 7; 6; 1; 4; 2; 3;
   4; 2; 6; 8; 5; 3; 7; 9; 1;
   7; 1; 3; 9; 2; 4; 8; 5; 6;
   9; 6; 1; 5; 3; 7; 2; 8; 4;
   2; 8; 7; 4; 1; 9; 6; 3; 5;
   3; 4; 5; 2; 8; 6; 1; 7; 9].

(** A consistent board without solution: the last cell of the first row
    needs a 9, which its column already holds. *)
Definition stuckBoard : Board :=
  [1; 2; 3; 4; 5; 6; 7; 8; 0;
   0; 0; 0; 0; 0; 0; 0; 0; 9] ++ replicate 63 0.

(** The solved example with three cells blanked. *)
Definition almostSolvedBoard : Board :=
  <[2%nat := 0]> (<[40%nat := 0]> (<[80%nat := 0]> solvedExampleBoard)).

(** A filled board that breaks every uniqueness constraint. *)
Definition allOnes : Board := replicate 81 1.

(** ** The two [Solve] entry points

    What [Solve] prints is kept as a value: one constructor per [Printf]
    that reports a verdict. *)

Inductive Message : Type :=
  | FoundAfter (steps : Z) (b : Board)   (* "Found valid solution after %d steps: %s" *)
  | NotFoundAfter (steps : Z)            (* "Could not find a valid solution ... after %d steps!" *)
  | AllSetAlready (b : Board)            (* "All values in this board are set already: %s" *)
  | Found (b : Board)                    (* "Found valid solution: %s" *)
  | NotFound.                            (* "Could not find a valid solution for this puzzle!" *)

(** [opsCnt = 0] *)
Definition resetOpsCnt : M unit :=
  fun s => Ok (tt, mkState (board s) 0).

(** The arguments [opsCnt] and [b] of the closing [Printf]. *)
Definition report (ok : bool) : M Message :=
  fun s => Ok (if ok then FoundAfter (opsCnt s) (board s)
               else NotFoundAfter (opsCnt s), s).

(** [Solve] of [board.go]: the sequential strategy.  The opening line,
    the rendering of the input board, is left out. *)
Definition Solve (fuel : nat) : M Message :=
  resetOpsCnt ;;;
  ok <- solveInner fuel 0 ;;
  report ok.

(** [copy(dst, src)] copies [min(len(dst), len(src))] elements. *)
Definition copy (dst src : Board) : Board :=
  take (length dst) src ++ drop (length src) dst.

(** The goroutine started for candidate [i]: it owns [copiedBoard].  The
    goroutine variant of the program keeps no [opsCnt]; the counter of the
    task's state is private to the model and starts at 0. *)
Definition task (fuel : nat) (b : Board) (i idx : Z) : Result (bool * State) :=
  (store idx i ;;;
   solveInner fuel (GoInt.add idx 1)) (mkState (copy NewBoard b) 0).

(** The fan-out loop of the parallel [Solve]: the outcomes of the tasks it
    starts, in launch order.  [b] itself is only read: the state after
    each check is dropped, since the check writes nothing but the counter
    that this variant does not have. *)
Fixpoint launch (fuel : nat) (b : Board) (idx : Z) (vals : list Z)
  : Result (list (Result (bool * State))) :=
  match vals with
  | [] => Ok []
  | i :: vals' =>
      match valuePossibleAt i idx (mkState b 0) with
      | Ok (p, _) =>
          match launch fuel b idx vals' with
          | Ok ts => Ok (if p then task fuel b i idx :: ts else ts)
          | Panic => Panic
          | OutOfFuel => OutOfFuel
          end
      | Panic => Panic
      | OutOfFuel => OutOfFuel
      end
  end.

(** [Solve] of the goroutine variant.  [select] takes a board from
    [resultChan] if some task sent one, and sees [doneChan] closed only
    when every started task called [wg.Done()], that is, returned false.
    Which successful task is received first is up to the scheduler, so the
    model is a relation between the input board and the message printed. *)
Inductive SolveParallel (fuel : nat) (b : Board) : Message -> Prop :=
  | Solve_all_set s :
      findNextFieldNotSetAlready 0 (mkState b 0) = Ok (81, s) ->
      SolveParallel fuel b (AllSetAlready b)
  | Solve_result idx s ts s' :
      findNextFieldNotSetAlready 0 (mkState b 0) = Ok (idx, s) ->
      idx <> 81 ->
      launch fuel b idx (seqZ 1 9) = Ok ts ->
      Ok (true, s') ∈ ts ->
      SolveParallel fuel b (Found (board s'))
  | Solve_done idx s ts :
      findNextFieldNotSetAlready 0 (mkState b 0) = Ok (idx, s) ->
      idx <> 81 ->
      launch fuel b idx (seqZ 1 9) = Ok ts ->
      Forall (fun t => exists s', t = Ok (false, s')) ts ->
      SolveParallel fuel b NotFound.

(** ** Specification vocabulary *)

(** The value of cell [i] (0 outside the slice). *)
Definition cell (b : Board) (i : Z) : Z := default 0 (b !! Z.to_nat i).

(** A board of the data model: 81 cells, each 0 (empty) or a digit 1..9. *)
Definition wellFormed (b : Board) : Prop :=
  length b = 81%nat /\ Forall (fun c => 0 <= c <= 9) b.

(** The cells examined for index [i]: its row, its column and its 3x3
    block, the latter through the block's top-left index. *)
Definition rowIdxs (i : Z) : list Z := (fun k => i / 9 * 9 + k) <$> seqZ 0 9.
Definition colIdxs (i : Z) : list Z := (fun k => i `mod` 9 + k * 9) <$> seqZ 0 9.
Definition anchor (i : Z) : Z := (i / 9) / 3 * 27 + (i `mod` 9) / 3 * 3.
Definition blockIdxs (i : Z) : list Z := (fun o => anchor i + o) <$> blockOffsets.

Definition inRow (b : Board) (v i : Z) : Prop :=
  exists j, 0 <= j <= 80 /\ j / 9 = i / 9 /\ b !! Z.to_nat j = Some v.
Definition inColumn (b : Board) (v i : Z) : Prop :=
  exists j, 0 <= j <= 80 /\ j `mod` 9 = i `mod` 9 /\ b !! Z.to_nat j = Some v.
Definition inBlock (b : Board) (v i : Z) : Prop :=
  exists o, o ∈ [0; 1; 2; 9; 10; 11; 18; 19; 20] /\
            b !! Z.to_nat (anchor i + o) = Some v.

(** Executable form of the membership test over a list of indices. *)
Definition occurs (b : Board) (v : Z) (idxs : list Z) : bool :=
  existsb (fun j => cell b j =? v) idxs.

Definition legal (b : Board) (v i : Z) : bool :=
  negb (occurs b v (rowIdxs i) || occurs b v (colIdxs i) || occurs b v (blockIdxs i)).

Definition inRange (i : Z) : Prop := 0 <= i <= 80.

#[local] Instance inRange_dec i : Decision (inRange i).
Proof. unfold inRange. apply _. Defined.

(** All 27 cells that [valuePossibleAt] examines for index [i]. *)
Definition scope (i : Z) : list Z := rowIdxs i ++ colIdxs i ++ blockIdxs i.

(** The uniqueness constraint cell by cell: a filled cell differs from
    every other cell of its row, column and block. *)
Definition noClash (b : Board) : Prop :=
  forall i k, 0 <= i <= 80 -> k ∈ scope i -> k <> i ->
              cell b i <> 0 -> cell b k <> cell b i.

(** The 27 units: 9 rows, 9 columns, 9 blocks, as lists of indices. *)
Definition rows : list (list Z) := (fun r => rowIdxs (9 * r)) <$> seqZ 0 9.
Definition columns : list (list Z) := (fun c => colIdxs c) <$> seqZ 0 9.
Definition blocks : list (list Z) :=
  (fun k => blockIdxs (k / 3 * 27 + k `mod` 3 * 3)) <$> seqZ 0 9.
Definition units : list (list Z) := rows ++ columns ++ blocks.

Definition values (b : Board) (u : list Z) : list Z := cell b <$> u.

(** No nonzero value occurs twice in a row, a column or a block. *)
Definition consistent (b : Board) : Prop :=
  Forall (fun u => NoDup (filter (fun c => c <> 0) (values b u))) units.

(** No empty cell. *)
Definition full (b : Board) : Prop :=
  forall i, 0 <= i <= 80 -> cell b i <> 0.

(** Each digit 1..9 occurs exactly once in [l]. *)
Definition eachDigitOnce (l : list Z) : Prop :=
  forall d, 1 <= d <= 9 -> length (filter (fun x => x = d) l) = 1%nat.

(** Every row, column and block is a permutation of 1..9. *)
Definition solved (b : Board) : Prop :=
  length b = 81%nat /\ Forall (fun u => values b u ≡ₚ seqZ 1 9) units.

(** [sol] keeps every clue of [b]. *)
Definition extends (b sol : Board) : Prop :=
  forall i, 0 <= i <= 80 -> cell b i <> 0 -> cell sol i = cell b i.

Definition solution (b sol : Board) : Prop := solved sol /\ extends b sol.

Definition uniqueSolution (b sol : Board) : Prop :=
  solution b sol /\ forall sol', solution b sol' -> sol' = sol.

(** The rendering, row by row: a line feed opens each row, and each cell
    is its digit followed by one space; a last line feed closes the text. *)
Definition digitChar (d : Z) : ascii := ascii_of_nat (48 + Z.to_nat d).
Definition cellText (d : Z) : string := String (digitChar d) " ".
Definition rowText (b : Board) (u : list Z) : string :=
  newline +:+ String.concat "" ((fun i => cellText (cell b i)) <$> u).
Definition render (b : Board) : string :=
  String.concat "" (rowText b <$> rows) +:+ newline.

(** ** The search as a function

    What the backtracker computes, cell by cell: [search n b] treats the
    last [n] cells of [b] and yields the completed board, if any.  It is
    the reference the imperative [solveInner] is compared with. *)

Fixpoint firstSome {A} (f : Z -> option A) (vals : list Z) : option A :=
  match vals with
  | [] => None
  | v :: vals' =>
      match f v with
      | Some r => Some r
      | None => firstSome f vals'
      end
  end.

Fixpoint search (n : nat) (b : Board) : option Board :=
  match n with
  | O => Some b
  | S n' =>
      let j := 80 - Z.of_nat n' in
      if cell b j =? 0 then
        firstSome (fun v => if legal b v j
                            then search n' (<[Z.to_nat j := v]> b)
                            else None) (seqZ 1 9)
      else search n' b
  end.

(** The search over the cells from [idx] on. *)
Definition searchFrom (idx : Z) (b : Board) : option Board :=
  search (Z.to_nat (81 - idx)) b.

(** ** Vocabulary of the further properties *)

(** The linear index that [Set] and [Get] compute from a coordinate. *)
Definition coordIdx (x y : Z) : Z := GoInt.add x (GoInt.mul y 9).

(** [r] comes no later than [sol] when the 81 cells are compared in index
    order. *)
Definition lexLe (r sol : Board) : Prop :=
  r = sol \/
  exists j, 0 <= j <= 80 /\ (forall k, 0 <= k < j -> cell r k = cell sol k) /\
            cell r j < cell sol j.

(** [almostSolvedBoard] with its last cell filled again: cells 2 and 40
    are empty, every cell after 40 is filled. *)
Definition tailFilledBoard : Board := <[80%nat := 9]> almostSolvedBoard.

(** A slice that is too short to be a board. *)
Definition shortBoard : Board := [1; 2; 3].

(** Reading a rendering back: the decimal digits of a text, in order. *)
Definition digitOf (a : ascii) : option Z :=
  let n := nat_of_ascii a in
  if ((48 <=? n) && (n <=? 57))%nat then Some (Z.of_nat n - 48) else None.
Fixpoint digitsOf (s : string) : list Z :=
  match s with
  | EmptyString => []
  | String a s' =>
      match digitOf a with
      | Some d => d :: digitsOf s'
      | None => digitsOf s'
      end
  end.

(** * Proofs *)

(** Linear arithmetic with division and remainder by constants. *)
Ltac dlia := Z.to_euclidean_division_equations; lia.

(** ** Machine integers *)

Lemma wrap_id z : GoInt.is_int z -> GoInt.wrap z = z.
Proof.
  unfold GoInt.is_int, GoInt.wrap. intros [Hlo Hhi].
  destruct (GoInt.min_int <=? z) eqn:E1; [|lia].
  destruct (z <=? GoInt.max_int) eqn:E2; [reflexivity|lia].
Qed.

Lemma add_small a b : -1000 <= a <= 1000 -> -1000 <= b <= 1000 -> GoInt.add a b = a + b.
Proof.
  intros Ha Hb. unfold GoInt.add. apply wrap_id.
  unfold GoInt.is_int, GoInt.min_int, GoInt.max_int. lia.
Qed.

(** ** Reading and writing an 81-cell board *)

Lemma cell_lookup (b : Board) i :
  0 <= i < Z.of_nat (length b) -> b !! Z.to_nat i = Some (cell b i).
Proof.
  intros Hi. unfold cell.
  destruct (lookup_lt_is_Some_2 b (Z.to_nat i)) as [c Hc]; [lia|].
  by rewrite Hc.
Qed.

Lemma load_in_range s i :
  0 <= i < Z.of_nat (length (board s)) -> load i s = Ok (cell (board s) i, s).
Proof.
  intros Hi. unfold load.
  destruct (i <? 0) eqn:E; [lia|]. by rewrite cell_lookup.
Qed.

Lemma load_out_of_range s i :
  i < 0 \/ Z.of_nat (length (board s)) <= i -> load i s = Panic.
Proof.
  intros Hi. unfold load.
  destruct (i <? 0) eqn:E; [done|].
  rewrite lookup_ge_None_2; [done|lia].
Qed.

Lemma store_in_range s i v :
  0 <= i < Z.of_nat (length (board s)) ->
  store i v s = Ok (tt, mkState (<[Z.to_nat i := v]> (board s)) (opsCnt s)).
Proof.
  intros Hi. unfold store.
  destruct (i <? 0) eqn:E; [lia|]. by rewrite cell_lookup.
Qed.

Lemma cell_insert_eq (b : Board) i v :
  0 <= i < Z.of_nat (length b) -> cell (<[Z.to_nat i := v]> b) i = v.
Proof.
  intros Hi. unfold cell. rewrite list_lookup_insert_eq; [done|lia].
Qed.

Lemma cell_insert_ne (b : Board) i j v :
  0 <= i -> 0 <= j -> i <> j -> cell (<[Z.to_nat i := v]> b) j = cell b j.
Proof.
  intros Hi Hj Hne. unfold cell. rewrite list_lookup_insert_ne; [done|lia].
Qed.

Lemma insert_cell_id (b : Board) i :
  0 <= i < Z.of_nat (length b) -> <[Z.to_nat i := cell b i]> b = b.
Proof. intros Hi. apply list_insert_id. by apply cell_lookup. Qed.

(** ** Finite case analysis over the 81 indices *)

Lemma all_indices (P : Z -> Prop) `{!forall i, Decision (P i)} :
  bool_decide (Forall P (seqZ 0 81)) = true -> forall i, 0 <= i <= 80 -> P i.
Proof.
  intros Hall i Hi. apply bool_decide_eq_true_1 in Hall.
  rewrite Forall_seqZ in Hall. apply Hall. lia.
Qed.

Ltac by_decide :=
  lazymatch goal with
  | |- ?G => apply (bool_decide_eq_true_1 G); vm_compute; reflexivity
  end.

Ltac by_all_indices :=
  lazymatch goal with
  | |- forall i, 0 <= i <= 80 -> @?P i =>
      apply (all_indices P); vm_compute; reflexivity
  end.

Lemma rowIdxs_code i :
  0 <= i <= 80 ->
  (fun k => GoInt.add (GoInt.mul (GoInt.quot i 9) 9) k) <$> seqZ 0 9 = rowIdxs i.
Proof. revert i. by_all_indices. Qed.

Lemma colIdxs_code i :
  0 <= i <= 80 ->
  (fun k => GoInt.add (GoInt.rem i 9) (GoInt.mul k 9)) <$> seqZ 0 9 = colIdxs i.
Proof. revert i. by_all_indices. Qed.

Lemma blockIdxs_code i :
  0 <= i <= 80 ->
  (fun o => GoInt.add
              (GoInt.add (GoInt.mul (GoInt.mul (GoInt.quot (GoInt.quot i 9) 3) 3) 9)
                         (GoInt.mul (GoInt.quot (GoInt.rem i 9) 3) 3)) o)
    <$> blockOffsets = blockIdxs i.
Proof. revert i. by_all_indices. Qed.

Lemma rowIdxs_range i : 0 <= i <= 80 -> Forall inRange (rowIdxs i).
Proof. revert i. by_all_indices. Qed.

Lemma colIdxs_range i : 0 <= i <= 80 -> Forall inRange (colIdxs i).
Proof. revert i. by_all_indices. Qed.

Lemma blockIdxs_range i : 0 <= i <= 80 -> Forall inRange (blockIdxs i).
Proof. revert i. by_all_indices. Qed.

(** ** Loops *)

Lemma forEach_fmap {R} (f : Z -> Z) (body : Z -> M (option R)) vals s :
  forEach (f <$> vals) body s = forEach vals (fun i => body (f i)) s.
Proof.
  revert s. induction vals as [|i vals IH]; intros s; [done|].
  simpl. unfold bind. destruct (body (f i) s) as [[[r|] s']| |]; auto.
Qed.

(** The membership loops read the board and leave the state alone. *)
Lemma forEach_returnFalseIfEq s v idxs :
  length (board s) = 81%nat ->
  Forall inRange idxs ->
  forEach idxs (returnFalseIfEq v) s
  = Ok (if occurs (board s) v idxs then Some false else None, s).
Proof.
  intros Hlen. induction 1 as [|j idxs Hj _ IH]; [done|].
  simpl. unfold bind, returnFalseIfEq at 1. unfold bind.
  unfold inRange in Hj. rewrite load_in_range by lia.
  destruct (cell (board s) j =? v); [done|]. simpl. apply IH.
Qed.

(** In any state, on any board, a membership loop that returns leaves
    the state as it was. *)
Lemma forEach_returnFalseIfEq_frame (f : Z -> Z) s v idxs r s' :
  forEach idxs (fun i => returnFalseIfEq v (f i)) s = Ok (r, s') -> s' = s.
Proof.
  induction idxs as [|j idxs IH]; simpl.
  - by intros [= _ <-].
  - unfold bind, returnFalseIfEq at 1. unfold bind, load.
    destruct (f j <? 0); [done|]. destruct (board s !! Z.to_nat (f j)) as [c|]; [|done].
    destruct (c =? v); [by intros [= _ <-]|]. apply IH.
Qed.

(** [valuePossibleAt] writes nothing but the counter. *)
Lemma valuePossibleAt_frame v idx s p s' :
  valuePossibleAt v idx s = Ok (p, s') ->
  board s' = board s /\ opsCnt s' = GoInt.add (opsCnt s) 1.
Proof.
  unfold valuePossibleAt, bind, incrOpsCnt.
  set (s1 := mkState _ _).
  destruct (forEach _ _ s1) as [[[x|] s2]| |] eqn:Hrow; try done;
    apply forEach_returnFalseIfEq_frame in Hrow as ->; [by intros [= _ <-]|].
  destruct (forEach _ _ s1) as [[[x|] s2]| |] eqn:Hcol; try done;
    apply forEach_returnFalseIfEq_frame in Hcol as ->; [by intros [= _ <-]|].
  destruct (forEach _ _ s1) as [[[x|] s2]| |] eqn:Hblock; try done;
    apply forEach_returnFalseIfEq_frame in Hblock as ->; by intros [= _ <-].
Qed.

Lemma valuePossibleAt_legal s v idx :
  length (board s) = 81%nat -> 0 <= idx <= 80 ->
  valuePossibleAt v idx s
  = Ok (legal (board s) v idx, mkState (board s) (GoInt.add (opsCnt s) 1)).
Proof.
  intros Hlen Hidx. unfold valuePossibleAt, bind, incrOpsCnt, legal.
  set (s1 := mkState _ _).
  rewrite <- (forEach_fmap (fun k => GoInt.add (GoInt.mul (GoInt.quot idx 9) 9) k)
                (returnFalseIfEq v)).
  rewrite rowIdxs_code by done.
  rewrite forEach_returnFalseIfEq by (done || by apply rowIdxs_range).
  simpl board. destruct (occurs _ v (rowIdxs idx)); [done|].
  rewrite <- (forEach_fmap (fun k => GoInt.add (GoInt.rem idx 9) (GoInt.mul k 9))
                (returnFalseIfEq v)).
  rewrite colIdxs_code by done.
  rewrite forEach_returnFalseIfEq by (done || by apply colIdxs_range).
  simpl board. destruct (occurs _ v (colIdxs idx)); [done|].
  rewrite <- (forEach_fmap
                (fun o => GoInt.add
                   (GoInt.add (GoInt.mul (GoInt.mul (GoInt.quot (GoInt.quot idx 9) 3) 3) 9)
                              (GoInt.mul (GoInt.quot (GoInt.rem idx 9) 3) 3)) o)
                (returnFalseIfEq v)).
  rewrite blockIdxs_code by done.
  rewrite forEach_returnFalseIfEq by (done || by apply blockIdxs_range).
  simpl board. by destruct (occurs _ v (blockIdxs idx)).
Qed.

Lemma occurs_true (b : Board) v idxs :
  occurs b v idxs = true <-> exists j, j ∈ idxs /\ cell b j = v.
Proof.
  unfold occurs. rewrite existsb_exists. split.
  - intros (j & Hin & Heq). exists j. rewrite list_elem_of_In. split; [done|lia].
  - intros (j & Hin & Heq). exists j. rewrite <- list_elem_of_In. split; [done|lia].
Qed.

Lemma rowIdxs_elem i j :
  0 <= i <= 80 -> j ∈ rowIdxs i <-> 0 <= j <= 80 /\ j / 9 = i / 9.
Proof.
  intros Hi. split.
  - intros Hin. split.
    + pose proof (rowIdxs_range i Hi) as Hr. rewrite Forall_forall in Hr. by apply Hr.
    + revert Hin. unfold rowIdxs. rewrite list_elem_of_fmap.
      intros (k & -> & Hk). apply elem_of_seqZ in Hk. dlia.
  - intros [Hj Heq]. unfold rowIdxs. rewrite list_elem_of_fmap.
    exists (j `mod` 9). split; [dlia|]. apply elem_of_seqZ. dlia.
Qed.

Lemma colIdxs_elem i j :
  0 <= i <= 80 -> j ∈ colIdxs i <-> 0 <= j <= 80 /\ j `mod` 9 = i `mod` 9.
Proof.
  intros Hi. split.
  - intros Hin. split.
    + pose proof (colIdxs_range i Hi) as Hr. rewrite Forall_forall in Hr. by apply Hr.
    + revert Hin. unfold colIdxs. rewrite list_elem_of_fmap.
      intros (k & -> & Hk). apply elem_of_seqZ in Hk. dlia.
  - intros [Hj Heq]. unfold colIdxs. rewrite list_elem_of_fmap.
    exists (j / 9). split; [dlia|]. apply elem_of_seqZ. dlia.
Qed.

Lemma occurs_row (b : Board) v i :
  length b = 81%nat -> 0 <= i <= 80 ->
  occurs b v (rowIdxs i) = true <-> inRow b v i.
Proof.
  intros Hlen Hi. rewrite occurs_true. unfold inRow. split.
  - intros (j & Hin & Heq). apply rowIdxs_elem in Hin as [Hj Hdiv]; [|done].
    exists j. rewrite cell_lookup by lia. by rewrite Heq.
  - intros (j & Hj & Hdiv & Hv). exists j. rewrite rowIdxs_elem by done.
    rewrite cell_lookup in Hv by lia. by simplify_eq.
Qed.

Lemma occurs_column (b : Board) v i :
  length b = 81%nat -> 0 <= i <= 80 ->
  occurs b v (colIdxs i) = true <-> inColumn b v i.
Proof.
  intros Hlen Hi. rewrite occurs_true. unfold inColumn. split.
  - intros (j & Hin & Heq). apply colIdxs_elem in Hin as [Hj Hmod]; [|done].
    exists j. rewrite cell_lookup by lia. by rewrite Heq.
  - intros (j & Hj & Hmod & Hv). exists j. rewrite colIdxs_elem by done.
    rewrite cell_lookup in Hv by lia. by simplify_eq.
Qed.

Lemma occurs_block (b : Board) v i :
  length b = 81%nat -> 0 <= i <= 80 ->
  occurs b v (blockIdxs i) = true <-> inBlock b v i.
Proof.
  intros Hlen Hi. rewrite occurs_true. unfold inBlock.
  pose proof (blockIdxs_range i Hi) as Hr. rewrite Forall_forall in Hr.
  change [0; 1; 2; 9; 10; 11; 18; 19; 20] with blockOffsets. split.
  - intros (j & Hin & Heq). specialize (Hr j Hin). unfold inRange in Hr.
    unfold blockIdxs in Hin. apply list_elem_of_fmap in Hin as (o & -> & Ho).
    exists o. rewrite cell_lookup by lia. by rewrite Heq.
  - intros (o & Ho & Hv). exists (anchor i + o).
    assert (anchor i + o ∈ blockIdxs i) as Hin.
    { unfold blockIdxs. apply list_elem_of_fmap. by exists o. }
    specialize (Hr _ Hin). unfold inRange in Hr.
    rewrite cell_lookup in Hv by lia. by simplify_eq.
Qed.

Lemma legal_false_iff (b : Board) v i :
  length b = 81%nat -> 0 <= i <= 80 ->
  legal b v i = false <-> inRow b v i \/ inColumn b v i \/ inBlock b v i.
Proof.
  intros Hlen Hi. unfold legal.
  rewrite negb_false_iff, !orb_true_iff.
  rewrite occurs_row, occurs_column, occurs_block by done. tauto.
Qed.

(** ** The first-empty-cell scan *)

Lemma findNext_loop_spec fuel : forall idx s,
  length (board s) = 81%nat -> 0 <= idx <= 81 ->
  (Z.to_nat (81 - idx) <= fuel)%nat ->
  exists j, findNextFieldNotSetAlready_loop fuel idx s = Ok (j, s) /\
            idx <= j <= 81 /\
            (forall k, idx <= k < j -> cell (board s) k <> 0) /\
            (j < 81 -> cell (board s) j = 0).
Proof.
  induction fuel as [|fuel IH]; intros idx s Hlen Hidx Hfuel.
  - assert (idx = 81) as -> by lia. exists 81. simpl. repeat split; lia.
  - simpl. destruct (idx <? 81) eqn:Hlt.
    + unfold bind. rewrite load_in_range by lia.
      destruct (cell (board s) idx =? 0) eqn:Hc; simpl.
      * exists idx. repeat split; lia.
      * rewrite add_small by lia.
        destruct (IH (idx + 1) s) as (j & Hrun & Hj & Hbefore & Hat); [done|lia|lia|].
        exists j. split; [done|]. split; [lia|]. split; [|done].
        intros k Hk. destruct (decide (k = idx)) as [->|]; [lia|]. apply Hbefore. lia.
    + exists idx. repeat split; lia.
Qed.

Lemma findNext_spec idx s :
  length (board s) = 81%nat -> 0 <= idx <= 81 ->
  exists j, findNextFieldNotSetAlready idx s = Ok (j, s) /\
            idx <= j <= 81 /\
            (forall k, idx <= k < j -> cell (board s) k <> 0) /\
            (j < 81 -> cell (board s) j = 0).
Proof. intros Hlen Hidx. apply findNext_loop_spec; [done|done|lia]. Qed.

Lemma findNext_loop_unfold fuel idx :
  findNextFieldNotSetAlready_loop fuel idx
  = if idx <? 81 then
      c <- load idx ;;
      if negb (c =? 0) then
        match fuel with
        | O => outOfFuel
        | S fuel' => findNextFieldNotSetAlready_loop fuel' (GoInt.add idx 1)
        end
      else ret idx
    else ret idx.
Proof. by destruct fuel. Qed.

(** The scan never exhausts its 81 rounds, whatever the board and the
    start index. *)
Lemma findNext_loop_total fuel : forall idx s,
  (Z.to_nat (81 - idx) <= fuel)%nat ->
  findNextFieldNotSetAlready_loop fuel idx s <> OutOfFuel.
Proof.
  induction fuel as [|fuel IH]; intros idx s Hfuel;
    rewrite findNext_loop_unfold; (destruct (idx <? 81) eqn:Hlt; [|done]).
  - lia.
  - unfold bind, load. destruct (idx <? 0) eqn:Hneg; [done|].
    destruct (board s !! Z.to_nat idx) as [c|]; [|done].
    destruct (negb (c =? 0)); [|done].
    rewrite add_small by lia. apply IH. lia.
Qed.

Lemma findNext_total idx s : findNextFieldNotSetAlready idx s <> OutOfFuel.
Proof.
  unfold findNextFieldNotSetAlready.
  destruct (decide (idx < 0)) as [Hneg|Hpos].
  - rewrite findNext_loop_unfold. destruct (idx <? 81) eqn:Hlt; [|lia].
    unfold bind, load. by destruct (idx <? 0) eqn:E; [|lia].
  - apply findNext_loop_total. lia.
Qed.

Lemma findNext_negative idx s :
  idx < 0 -> findNextFieldNotSetAlready idx s = Panic.
Proof.
  intros Hidx. unfold findNextFieldNotSetAlready. rewrite findNext_loop_unfold.
  destruct (idx <? 81) eqn:Hlt; [|lia].
  unfold bind. rewrite load_out_of_range; [done|lia].
Qed.

Lemma findNext_past_end idx s :
  81 <= idx -> findNextFieldNotSetAlready idx s = Ok (idx, s).
Proof.
  intros Hidx. unfold findNextFieldNotSetAlready. rewrite findNext_loop_unfold.
  destruct (idx <? 81) eqn:Hlt; [lia|done].
Qed.

(** ** The backtracker computes [search] *)

Lemma occurs_insert (b : Board) j x v idxs :
  length b = 81%nat -> 0 <= j <= 80 -> Forall inRange idxs ->
  x <> v -> cell b j <> v ->
  occurs (<[Z.to_nat j := x]> b) v idxs = occurs b v idxs.
Proof.
  intros Hlen Hj Hr Hx Hc. unfold occurs.
  induction Hr as [|k idxs Hk _ IH]; [done|]. simpl. rewrite IH. f_equal.
  unfold inRange in Hk. destruct (decide (k = j)) as [->|Hne].
  - rewrite cell_insert_eq by lia. destruct (x =? v) eqn:?, (cell b j =? v) eqn:?; lia.
  - by rewrite cell_insert_ne by lia.
Qed.

Lemma legal_insert (b : Board) j x v :
  length b = 81%nat -> 0 <= j <= 80 -> x <> v -> cell b j <> v ->
  legal (<[Z.to_nat j := x]> b) v j = legal b v j.
Proof.
  intros Hlen Hj Hx Hc. unfold legal.
  rewrite !occurs_insert; auto using rowIdxs_range, colIdxs_range, blockIdxs_range.
Qed.

Lemma searchFrom_end b : searchFrom 81 b = Some b.
Proof. done. Qed.

Lemma searchFrom_unfold idx b :
  0 <= idx <= 80 ->
  searchFrom idx b
  = if cell b idx =? 0 then
      firstSome (fun v => if legal b v idx
                          then searchFrom (idx + 1) (<[Z.to_nat idx := v]> b)
                          else None) (seqZ 1 9)
    else searchFrom (idx + 1) b.
Proof.
  intros Hidx. unfold searchFrom.
  replace (Z.to_nat (81 - idx)) with (S (Z.to_nat (81 - (idx + 1)))) by lia.
  cbn [search]. by replace (80 - Z.of_nat (Z.to_nat (81 - (idx + 1)))) with idx by lia.
Qed.

Lemma searchFrom_skip (b : Board) idx j :
  0 <= idx <= j -> j <= 81 ->
  (forall k, idx <= k < j -> cell b k <> 0) ->
  searchFrom idx b = searchFrom j b.
Proof.
  intros Hidx Hj. remember (Z.to_nat (j - idx)) as m eqn:Hm.
  revert idx Hidx Hm. induction m as [|m IH]; intros idx Hidx Hm Hfilled.
  - by replace idx with j by lia.
  - rewrite searchFrom_unfold by lia.
    destruct (cell b idx =? 0) eqn:Hc.
    + exfalso. apply (Hfilled idx); lia.
    + apply IH; [lia|lia|]. intros k Hk. apply Hfilled. lia.
Qed.

Section Backtracking.

Variable rec : Z -> M bool.
Variable b : Board.
Variable j : Z.
Hypothesis Hlen : length b = 81%nat.
Hypothesis Hj : 0 <= j <= 80.
Hypothesis Hempty : cell b j = 0.
Hypothesis Hrec : forall b' c, length b' = 81%nat ->
  exists c', rec (j + 1) (mkState b' c)
             = Ok (match searchFrom (j + 1) b' with
                   | Some r => (true, mkState r c')
                   | None => (false, mkState b' c')
                   end).

(** One round of the candidate loop, entered with cell [j] holding a
    value [x] left by an earlier round (or the initial 0): the candidate
    is judged as on [b] itself, and a failed round leaves its candidate
    in cell [j] and nothing else. *)
Lemma tryValue_round v vals x c :
  x <> v -> 0 <> v ->
  exists c',
    forEach (v :: vals) (tryValue rec j) (mkState (<[Z.to_nat j := x]> b) c)
    = if legal b v j then
        match searchFrom (j + 1) (<[Z.to_nat j := v]> b) with
        | Some r => Ok (Some true, mkState r c')
        | None => forEach vals (tryValue rec j) (mkState (<[Z.to_nat j := v]> b) c')
        end
      else forEach vals (tryValue rec j) (mkState (<[Z.to_nat j := x]> b) c').
Proof.
  intros Hxv H0v. cbn [forEach]. unfold bind at 1. unfold tryValue at 1. unfold bind at 1.
  rewrite valuePossibleAt_legal by (simpl; rewrite ?length_insert; done).
  cbn [board opsCnt]. rewrite legal_insert by (done || lia).
  destruct (legal b v j) eqn:Hlegal; [|by eexists].
  unfold bind at 1. rewrite store_in_range by (simpl; rewrite length_insert; lia).
  cbn [board opsCnt]. rewrite list_insert_insert_eq.
  unfold bind at 1. rewrite add_small by lia.
  destruct (Hrec (<[Z.to_nat j := v]> b) (GoInt.add c 1)) as [c' ->];
    [by rewrite length_insert|].
  exists c'. by destruct (searchFrom (j + 1) (<[Z.to_nat j := v]> b)).
Qed.

Lemma tryValues_refines vals : forall x c,
  NoDup vals -> x ∉ vals -> 0 ∉ vals ->
  match firstSome (fun v => if legal b v j
                            then searchFrom (j + 1) (<[Z.to_nat j := v]> b)
                            else None) vals with
  | Some r =>
      exists c', forEach vals (tryValue rec j) (mkState (<[Z.to_nat j := x]> b) c)
                 = Ok (Some true, mkState r c')
  | None =>
      exists x' c', forEach vals (tryValue rec j) (mkState (<[Z.to_nat j := x]> b) c)
                    = Ok (None, mkState (<[Z.to_nat j := x']> b) c')
  end.
Proof.
  induction vals as [|v vals IH]; intros x c Hnd Hx H0.
  - simpl. by exists x, c.
  - apply NoDup_cons in Hnd as [Hv Hnd].
    apply not_elem_of_cons in Hx as [Hxv Hx].
    apply not_elem_of_cons in H0 as [H0v H0].
    destruct (tryValue_round v vals x c Hxv H0v) as [c' ->].
    cbn [firstSome]. destruct (legal b v j).
    + destruct (searchFrom (j + 1) (<[Z.to_nat j := v]> b)) as [r|].
      * by exists c'.
      * by apply IH.
    + by apply IH.
Qed.

End Backtracking.

Lemma solveInner_refines fuel : forall idx b c,
  length b = 81%nat -> 0 <= idx <= 81 -> (Z.to_nat (82 - idx) <= fuel)%nat ->
  exists c', solveInner fuel idx (mkState b c)
             = Ok (match searchFrom idx b with
                   | Some r => (true, mkState r c')
                   | None => (false, mkState b c')
                   end).
Proof.
  induction fuel as [|fuel IH]; intros idx b c Hlen Hidx Hfuel; [lia|].
  cbn [solveInner]. unfold bind at 1.
  destruct (findNext_spec idx (mkState b c)) as (j & Hrun & Hj & Hbefore & Hat); [done..|].
  cbn [board] in *. rewrite Hrun.
  rewrite (searchFrom_skip b idx j) by (lia || done).
  destruct (decide (j = 81)) as [->|Hne].
  - rewrite Z.eqb_refl, searchFrom_end. by exists c.
  - destruct (j =? 81) eqn:E; [lia|]. clear E.
    specialize (Hat ltac:(lia)).
    rewrite searchFrom_unfold by lia. rewrite Hat. cbn [Z.eqb].
    unfold bind at 1.
    pose proof (tryValues_refines (solveInner fuel) b j Hlen ltac:(lia) Hat) as Hloop.
    assert (<[Z.to_nat j := 0]> b = b) as Hb0
      by (rewrite <- Hat; apply insert_cell_id; lia).
    specialize (Hloop ltac:(intros b' c0 Hb'; apply IH; [done|lia|lia]) (seqZ 1 9) 0 c
                      ltac:(apply NoDup_seqZ)
                      ltac:(rewrite elem_of_seqZ; lia) ltac:(rewrite elem_of_seqZ; lia)).
    rewrite Hb0 in Hloop.
    destruct (firstSome _ (seqZ 1 9)) as [r|].
    + destruct Hloop as [c' ->]. by exists c'.
    + destruct Hloop as (x' & c' & ->).
      unfold bind. rewrite store_in_range by (simpl; rewrite length_insert; lia).
      cbn [board opsCnt]. rewrite list_insert_insert_eq, Hb0. by exists c'.
Qed.

(** ** Start indices outside the board *)

Lemma seqZ_0_9 : seqZ 0 9 = [0; 1; 2; 3; 4; 5; 6; 7; 8].
Proof. reflexivity. Qed.

Lemma seqZ_1_9 : seqZ 1 9 = [1; 2; 3; 4; 5; 6; 7; 8; 9].
Proof. reflexivity. Qed.

Lemma startOfRowIdx_past_end idx :
  GoInt.is_int idx -> 81 <= idx ->
  81 <= GoInt.add (GoInt.mul (GoInt.quot idx 9) 9) 0.
Proof.
  unfold GoInt.is_int, GoInt.min_int, GoInt.max_int. intros Hint Hidx.
  unfold GoInt.add, GoInt.mul, GoInt.quot.
  rewrite Z.quot_div_nonneg by lia.
  rewrite (wrap_id (idx / 9))
    by (unfold GoInt.is_int, GoInt.min_int, GoInt.max_int; dlia).
  rewrite (wrap_id (idx / 9 * 9))
    by (unfold GoInt.is_int, GoInt.min_int, GoInt.max_int; dlia).
  rewrite wrap_id
    by (unfold GoInt.is_int, GoInt.min_int, GoInt.max_int; dlia).
  dlia.
Qed.

Lemma valuePossibleAt_past_end v idx s :
  length (board s) = 81%nat -> GoInt.is_int idx -> 81 <= idx ->
  valuePossibleAt v idx s = Panic.
Proof.
  intros Hlen Hint Hidx. unfold valuePossibleAt, bind, incrOpsCnt.
  rewrite seqZ_0_9. cbn [forEach]. unfold bind, returnFalseIfEq at 1. unfold bind.
  rewrite load_out_of_range; [done|].
  right. simpl. rewrite Hlen. pose proof (startOfRowIdx_past_end idx Hint Hidx). lia.
Qed.

(** Started outside the board, the call aborts: at a negative index the
    scan reads [b[idx]], past the end the first membership loop reads
    beyond the last row. *)
Lemma solveInner_outside_panics fuel idx s :
  length (board s) = 81%nat -> GoInt.is_int idx -> idx < 0 \/ 81 < idx ->
  solveInner (S fuel) idx s = Panic.
Proof.
  intros Hlen Hint Hidx.
  cbn [solveInner]. unfold bind at 1. destruct Hidx as [Hneg|Hpast].
  - by rewrite findNext_negative.
  - rewrite findNext_past_end by lia.
    destruct (idx =? 81) eqn:E; [lia|].
    unfold bind at 1. rewrite seqZ_1_9. cbn [forEach].
    unfold bind at 1. unfold tryValue at 1. unfold bind at 1.
    by rewrite valuePossibleAt_past_end by (done || lia).
Qed.

Lemma solveInner_outside fuel idx s :
  length (board s) = 81%nat -> GoInt.is_int idx -> idx < 0 \/ 81 < idx ->
  forall r, solveInner fuel idx s <> Ok r.
Proof.
  intros Hlen Hint Hidx r. destruct fuel as [|fuel]; [done|].
  by rewrite solveInner_outside_panics.
Qed.

(** ** Properties of the search *)

Lemma firstSome_Some {A} (f : Z -> option A) vals r :
  firstSome f vals = Some r -> exists v, v ∈ vals /\ f v = Some r.
Proof.
  induction vals as [|v vals IH]; [done|]. simpl.
  destruct (f v) as [r'|] eqn:Hf.
  - intros [= ->]. exists v. split; [left|done].
  - intros Hrest. destruct (IH Hrest) as (v' & Hin & Hv'). exists v'. split; [by right|done].
Qed.

Lemma firstSome_is_Some {A} (f : Z -> option A) vals v :
  v ∈ vals -> is_Some (f v) -> is_Some (firstSome f vals).
Proof.
  intros Hin Hv. induction vals as [|v' vals IH]; [by apply elem_of_nil in Hin|].
  simpl. destruct (f v') as [r'|] eqn:Hf; [by eexists|].
  apply elem_of_cons in Hin as [->|Hin]; [|by apply IH].
  rewrite Hf in Hv. by destruct Hv.
Qed.

Lemma firstSome_None {A} (f : Z -> option A) vals :
  firstSome f vals = None <-> forall v, v ∈ vals -> f v = None.
Proof.
  induction vals as [|v vals IH]; simpl.
  - split; [|done]. intros _ v Hv. by apply elem_of_nil in Hv.
  - destruct (f v) as [r|] eqn:Hf.
    + split; [done|]. intros Hall. rewrite <- Hf. apply Hall. left.
    + rewrite IH. split.
      * intros Hall v' Hv'. apply elem_of_cons in Hv' as [->|Hv']; [done|by apply Hall].
      * intros Hall v' Hv'. apply Hall. by right.
Qed.

(** Induction over a successful search: the cell at [idx] is either
    skipped (already filled) or given a legal digit. *)
Lemma searchFrom_ind (P : Z -> Board -> Board -> Prop) :
  (forall b, length b = 81%nat -> P 81 b b) ->
  (forall idx b r, 0 <= idx <= 80 -> length b = 81%nat -> cell b idx <> 0 ->
     searchFrom (idx + 1) b = Some r -> P (idx + 1) b r -> P idx b r) ->
  (forall idx b v r, 0 <= idx <= 80 -> length b = 81%nat -> cell b idx = 0 ->
     1 <= v <= 9 -> legal b v idx = true ->
     searchFrom (idx + 1) (<[Z.to_nat idx := v]> b) = Some r ->
     P (idx + 1) (<[Z.to_nat idx := v]> b) r -> P idx b r) ->
  forall idx b r, 0 <= idx <= 81 -> length b = 81%nat ->
                  searchFrom idx b = Some r -> P idx b r.
Proof.
  intros Hend Hskip Hfill idx b r Hidx.
  remember (Z.to_nat (81 - idx)) as n eqn:Hn.
  revert idx b Hidx Hn. induction n as [|n IH]; intros idx b Hidx Hn Hlen Hs.
  - assert (idx = 81) as -> by lia. rewrite searchFrom_end in Hs.
    injection Hs as <-. by apply Hend.
  - rewrite searchFrom_unfold in Hs by lia.
    destruct (cell b idx =? 0) eqn:Hc.
    + apply firstSome_Some in Hs as (v & Hv & Hs).
      apply elem_of_seqZ in Hv.
      destruct (legal b v idx) eqn:Hlegal; [|done].
      apply (Hfill idx b v r); [lia|done|lia|lia|done|done|].
      apply IH; [lia|lia|by rewrite length_insert|done].
    + apply Hskip; [lia|done|lia|done|].
      apply IH; [lia|lia|done|done].
Qed.

(** What a successful search changes: only empty cells at or after [idx],
    each to a digit, and it leaves no empty cell from [idx] on. *)
Lemma searchFrom_frame idx b r :
  0 <= idx <= 81 -> length b = 81%nat -> searchFrom idx b = Some r ->
  length r = 81%nat /\
  (forall i, 0 <= i <= 80 ->
     cell r i = cell b i \/ (cell b i = 0 /\ idx <= i /\ 1 <= cell r i <= 9)) /\
  (forall i, idx <= i <= 80 -> cell r i <> 0).
Proof.
  revert idx b r. apply searchFrom_ind.
  - intros b Hlen. split; [done|]. split; [by left|]. intros i Hi. lia.
  - intros idx b r Hidx Hlen Hc _ (Hlr & Hdelta & Hfull).
    split; [done|]. split.
    + intros i Hi. destruct (Hdelta i Hi) as [Heq|(? & ? & ?)]; [by left|right; lia].
    + intros i Hi. destruct (decide (i = idx)) as [->|Hne]; [|apply Hfull; lia].
      destruct (Hdelta idx ltac:(lia)) as [Heq|(? & ? & ?)]; [by rewrite Heq|lia].
  - intros idx b v r Hidx Hlen Hc Hv _ _ (Hlr & Hdelta & Hfull).
    split; [done|]. split.
    + intros i Hi. destruct (decide (i = idx)) as [->|Hne].
      * right. destruct (Hdelta idx ltac:(lia)) as [Heq|(Hz & _)].
        -- rewrite cell_insert_eq in Heq by lia. lia.
        -- rewrite cell_insert_eq in Hz by lia. lia.
      * destruct (Hdelta i Hi) as [Heq|(Hz & ? & ?)];
          rewrite cell_insert_ne in * by lia; [by left|right; lia].
    + intros i Hi. destruct (decide (i = idx)) as [->|Hne]; [|apply Hfull; lia].
      destruct (Hdelta idx ltac:(lia)) as [Heq|(Hz & _)];
        rewrite cell_insert_eq in * by lia; lia.
Qed.

(** ** Geometry of the grid, by enumeration *)

Lemma scope_range i : 0 <= i <= 80 -> Forall inRange (scope i).
Proof. revert i. by_all_indices. Qed.

Lemma scope_sym i : 0 <= i <= 80 -> Forall (fun k => i ∈ scope k) (scope i).
Proof. revert i. by_all_indices. Qed.

(** Two cells of one scope share a unit. *)
Lemma scope_unit i :
  0 <= i <= 80 ->
  Forall (fun k => k = i \/ Exists (fun u => i ∈ u /\ k ∈ u) units) (scope i).
Proof. revert i. by_all_indices. Qed.

Lemma index_in_unit i : 0 <= i <= 80 -> Exists (fun u => i ∈ u) units.
Proof. revert i. by_all_indices. Qed.

(** Each unit lists nine distinct cells, each in the scope of the others. *)
Lemma units_shape :
  Forall (fun u => length u = 9%nat /\ NoDup u /\ Forall inRange u /\
                   Forall (fun i => Forall (fun k => k ∈ scope i) u) u) units.
Proof. by_decide. Qed.

Lemma legal_true_iff (b : Board) v i :
  legal b v i = true <-> forall k, k ∈ scope i -> cell b k <> v.
Proof.
  unfold legal, scope. rewrite negb_true_iff, !orb_false_iff.
  assert (forall idxs, occurs b v idxs = false <-> forall k, k ∈ idxs -> cell b k <> v) as Hocc.
  { intros idxs. rewrite <- not_true_iff_false, occurs_true. split.
    - intros Hn k Hk Heq. apply Hn. by exists k.
    - intros Hall (k & Hk & Heq). by apply (Hall k). }
  rewrite !Hocc. split.
  - intros [[Hr Hc] Hb] k Hk. rewrite !elem_of_app in Hk.
    destruct Hk as [?|[?|?]]; auto.
  - intros Hall. repeat split; intros k Hk; apply Hall; rewrite !elem_of_app; auto.
Qed.

(** ** Consistency is kept by legal moves *)

Lemma noClash_insert (b : Board) j v :
  length b = 81%nat -> 0 <= j <= 80 -> v <> 0 ->
  legal b v j = true -> noClash b -> noClash (<[Z.to_nat j := v]> b).
Proof.
  intros Hlen Hj Hv Hlegal Hb i k Hi Hk Hne Hci.
  rewrite legal_true_iff in Hlegal.
  pose proof (scope_range i Hi) as Hr. rewrite Forall_forall in Hr.
  pose proof (Hr k Hk) as Hkr. unfold inRange in Hkr.
  destruct (decide (i = j)) as [->|Hij].
  - rewrite cell_insert_eq by lia. rewrite cell_insert_ne by lia. by apply Hlegal.
  - rewrite (cell_insert_ne b j i) in * by lia.
    destruct (decide (k = j)) as [->|Hkj].
    + rewrite cell_insert_eq by lia. intros Heq. apply (Hlegal i); [|done].
      pose proof (scope_sym i Hi) as Hs. rewrite Forall_forall in Hs. by apply Hs.
    + rewrite cell_insert_ne by lia. by apply Hb.
Qed.

Lemma NoDup_filter_fmap_inj (f : Z -> Z) (P : Z -> Prop) `{!forall x, Decision (P x)} u i k :
  NoDup (filter P (f <$> u)) -> i ∈ u -> k ∈ u -> i <> k -> P (f i) -> f k <> f i.
Proof.
  intros Hnd Hi Hk Hne HP Heq.
  induction u as [|a u IH]; [by apply elem_of_nil in Hi|].
  rewrite fmap_cons in Hnd.
  assert (forall x, x ∈ u -> P (f x) -> f x ∈ filter P (f <$> u)) as Hmem.
  { intros x Hx HPx. apply (list_elem_of_filter P). split; [done|].
    apply list_elem_of_fmap. by exists x. }
  apply elem_of_cons in Hi as [->|Hi], Hk as [->|Hk]; try done.
  - rewrite filter_cons_True in Hnd by done. apply NoDup_cons in Hnd as [Hnotin _].
    apply Hnotin. rewrite <- Heq. apply Hmem; [done|]. by rewrite Heq.
  - rewrite filter_cons_True in Hnd by (by rewrite Heq).
    apply NoDup_cons in Hnd as [Hnotin _].
    apply Hnotin. rewrite Heq. by apply Hmem.
  - apply IH; [|done..]. destruct (decide (P (f a))).
    + rewrite filter_cons_True in Hnd by done. by apply NoDup_cons in Hnd as [_ ?].
    + by rewrite filter_cons_False in Hnd.
Qed.

Lemma consistent_noClash b : consistent b -> noClash b.
Proof.
  intros Hcons i k Hi Hk Hne Hci.
  pose proof (scope_unit i Hi) as Hu. rewrite Forall_forall in Hu.
  destruct (Hu k Hk) as [?|Hex]; [done|].
  apply Exists_exists in Hex as (u & Hin & Hiu & Hku).
  unfold consistent in Hcons. rewrite Forall_forall in Hcons.
  apply (NoDup_filter_fmap_inj (cell b) (fun c => c <> 0) u i k); auto.
  by apply Hcons.
Qed.

Lemma noClash_NoDup b u :
  u ∈ units -> noClash b -> (forall i, i ∈ u -> cell b i <> 0) -> NoDup (values b u).
Proof.
  intros Hu Hb Hfull.
  pose proof units_shape as Hshape. rewrite Forall_forall in Hshape.
  destruct (Hshape u Hu) as (_ & Hnd & Hr & Hsc).
  rewrite Forall_forall in Hr. rewrite Forall_forall in Hsc.
  apply NoDup_fmap_2_strong; [|done].
  intros i k Hi Hk Heq. destruct (decide (k = i)) as [|Hne]; [done|].
  exfalso. apply (Hb i k); auto.
  - by apply Hr.
  - specialize (Hsc i Hi). rewrite Forall_forall in Hsc. by apply Hsc.
Qed.

Lemma NoDup_digits_Permutation (l : list Z) :
  NoDup l -> length l = 9%nat -> Forall (fun c => 1 <= c <= 9) l -> l ≡ₚ seqZ 1 9.
Proof.
  intros Hnd Hlen Hdig. apply submseteq_length_Permutation.
  - apply NoDup_submseteq; [done|]. intros x Hx.
    rewrite Forall_forall in Hdig. apply elem_of_seqZ. specialize (Hdig x Hx). lia.
  - rewrite Hlen. done.
Qed.

Lemma Permutation_eachDigitOnce (l : list Z) :
  l ≡ₚ seqZ 1 9 -> eachDigitOnce l.
Proof.
  intros Hp d Hd. rewrite Hp.
  assert (d ∈ seqZ 1 9) as Hin by (apply elem_of_seqZ; lia).
  revert Hin. rewrite seqZ_1_9. clear.
  rewrite !elem_of_cons, elem_of_nil. intros Hin.
  repeat (destruct Hin as [->|Hin]; [by vm_compute|]). done.
Qed.

(** A board without clash, without empty cell and with digits only is
    solved. *)
Lemma noClash_full_solved b :
  length b = 81%nat -> noClash b -> full b ->
  (forall i, 0 <= i <= 80 -> 1 <= cell b i <= 9) -> solved b.
Proof.
  intros Hlen Hb Hfull Hdig. split; [done|].
  rewrite Forall_forall. intros u Hu.
  pose proof units_shape as Hshape. rewrite Forall_forall in Hshape.
  destruct (Hshape u Hu) as (Hl & _ & Hr & _). rewrite Forall_forall in Hr.
  apply NoDup_digits_Permutation.
  - apply noClash_NoDup; [done..|]. intros i Hi. apply Hfull. by apply Hr.
  - unfold values. by rewrite length_fmap.
  - unfold values. rewrite Forall_fmap, Forall_forall. intros i Hi. simpl.
    apply Hdig. by apply Hr.
Qed.

Lemma searchFrom_noClash idx b r :
  0 <= idx <= 81 -> length b = 81%nat -> searchFrom idx b = Some r ->
  noClash b -> noClash r.
Proof.
  revert idx b r. apply (searchFrom_ind (fun _ b r => noClash b -> noClash r)).
  - done.
  - intros idx b r _ _ _ _ IH Hb. by apply IH.
  - intros idx b v r Hidx Hlen _ Hv Hlegal _ IH Hb.
    apply IH. apply noClash_insert; [done|lia|lia|done|done].
Qed.

(** A solved board has no clash and holds digits only. *)
Lemma solved_noClash sol : solved sol -> noClash sol.
Proof.
  intros [_ Hperm]. apply consistent_noClash. unfold consistent.
  eapply Forall_impl; [exact Hperm|]. intros u Hu. simpl in Hu.
  apply NoDup_filter. rewrite Hu. apply NoDup_seqZ.
Qed.

Lemma solved_digits sol i : solved sol -> 0 <= i <= 80 -> 1 <= cell sol i <= 9.
Proof.
  intros [_ Hperm] Hi.
  pose proof (index_in_unit i Hi) as Hex. apply Exists_exists in Hex as (u & Hu & Hiu).
  rewrite Forall_forall in Hperm. specialize (Hperm u Hu).
  assert (cell sol i ∈ seqZ 1 9) as Hin.
  { rewrite <- Hperm. unfold values. apply list_elem_of_fmap. by exists i. }
  apply elem_of_seqZ in Hin. lia.
Qed.

Lemma extends_insert (b sol : Board) j :
  length b = 81%nat -> 0 <= j <= 80 ->
  extends b sol -> extends (<[Z.to_nat j := cell sol j]> b) sol.
Proof.
  intros Hlen Hj Hext i Hi Hci. destruct (decide (i = j)) as [->|Hne].
  - by rewrite cell_insert_eq by lia.
  - rewrite cell_insert_ne in * by lia. by apply Hext.
Qed.

(** The digit a solution holds at an empty cell is a legal move. *)
Lemma solution_legal (b sol : Board) j :
  length b = 81%nat -> 0 <= j <= 80 -> cell b j = 0 ->
  solved sol -> extends b sol -> legal b (cell sol j) j = true.
Proof.
  intros Hlen Hj Hempty Hsol Hext. apply legal_true_iff. intros k Hk.
  pose proof (solved_digits sol j Hsol Hj) as Hd.
  pose proof (scope_range j Hj) as Hr. rewrite Forall_forall in Hr.
  pose proof (Hr k Hk) as Hkr. unfold inRange in Hkr.
  destruct (decide (k = j)) as [->|Hne]; [lia|].
  destruct (decide (cell b k = 0)) as [Hz|Hnz]; [lia|].
  rewrite <- (Hext k Hkr Hnz).
  apply (solved_noClash sol Hsol j k); [done..|lia].
Qed.

(** Completeness: the search finds a completion whenever one exists. *)
Lemma searchFrom_complete (sol : Board) (Hsol : solved sol) : forall idx b,
  0 <= idx <= 81 -> length b = 81%nat -> extends b sol ->
  is_Some (searchFrom idx b).
Proof.
  intros idx. remember (Z.to_nat (81 - idx)) as n eqn:Hn.
  revert idx Hn. induction n as [|n IH]; intros idx Hn b Hidx Hlen Hext.
  - assert (idx = 81) as -> by lia. by rewrite searchFrom_end.
  - rewrite searchFrom_unfold by lia.
    destruct (cell b idx =? 0) eqn:Hc.
    + apply (firstSome_is_Some _ _ (cell sol idx)).
      * apply elem_of_seqZ. pose proof (solved_digits sol idx Hsol). lia.
      * rewrite solution_legal by (done || lia).
        apply IH; [lia|lia|by rewrite length_insert|].
        apply extends_insert; [done|lia|done].
    + apply IH; [lia|lia|done|done].
Qed.

(** A board that a solution extends is well formed and consistent. *)
Lemma extends_noClash (b sol : Board) : solved sol -> extends b sol -> noClash b.
Proof.
  intros Hsol Hext i k Hi Hk Hne Hci Heq.
  pose proof (scope_range i Hi) as Hr. rewrite Forall_forall in Hr.
  pose proof (Hr k Hk) as Hkr. unfold inRange in Hkr.
  apply (solved_noClash sol Hsol i k); [done..| |].
  - rewrite (Hext i) by done. pose proof (solved_digits sol i Hsol). lia.
  - rewrite (Hext i), (Hext k) by (done || lia). done.
Qed.

(** ** Fuel *)

Lemma forEach_mono {R} (body body' : Z -> M (option R)) :
  (forall i s r, body i s = Ok r -> body' i s = Ok r) ->
  forall vals s r, forEach vals body s = Ok r -> forEach vals body' s = Ok r.
Proof.
  intros Hbody. induction vals as [|v vals IH]; intros s r; [done|].
  cbn [forEach]. unfold bind.
  destruct (body v s) as [[x s1]| |] eqn:Hrun; try done.
  rewrite (Hbody _ _ _ Hrun). destruct x; [done|]. apply IH.
Qed.

Lemma tryValue_mono (rec rec' : Z -> M bool) idx :
  (forall i s r, rec i s = Ok r -> rec' i s = Ok r) ->
  forall v s r, tryValue rec idx v s = Ok r -> tryValue rec' idx v s = Ok r.
Proof.
  intros Hrec v s r. unfold tryValue, bind.
  destruct (valuePossibleAt v idx s) as [[[|] s1]| |]; try done.
  destruct (store idx v s1) as [[[] s2]| |]; try done.
  destruct (rec (GoInt.add idx 1) s2) as [[ok s3]| |] eqn:Hrun; try done.
  by rewrite (Hrec _ _ _ Hrun).
Qed.

(** [solveInner] with its monadic plumbing unfolded once. *)
Lemma solveInner_S fuel idx s :
  solveInner (S fuel) idx s
  = match findNextFieldNotSetAlready idx s with
    | Ok (j, s1) =>
        if j =? 81 then Ok (true, s1)
        else match forEach (seqZ 1 9) (tryValue (solveInner fuel) j) s1 with
             | Ok (Some x, s2) => Ok (x, s2)
             | Ok (None, s2) =>
                 match store j 0 s2 with
                 | Ok (_, s3) => Ok (false, s3)
                 | Panic => Panic
                 | OutOfFuel => OutOfFuel
                 end
             | Panic => Panic
             | OutOfFuel => OutOfFuel
             end
    | Panic => Panic
    | OutOfFuel => OutOfFuel
    end.
Proof.
  cbn [solveInner]. unfold bind, ret.
  destruct (findNextFieldNotSetAlready idx s) as [[j s1]| |]; try done.
  destruct (j =? 81); [done|].
  by destruct (forEach _ _ s1) as [[[x|] s2]| |].
Qed.

Lemma solveInner_fuel_mono fuel : forall fuel' idx s r,
  (fuel <= fuel')%nat -> solveInner fuel idx s = Ok r -> solveInner fuel' idx s = Ok r.
Proof.
  induction fuel as [|fuel IH]; intros fuel' idx s r Hle; [done|].
  destruct fuel' as [|fuel']; [lia|].
  rewrite !solveInner_S.
  destruct (findNextFieldNotSetAlready idx s) as [[j s1]| |]; try done.
  destruct (j =? 81); [done|].
  destruct (forEach (seqZ 1 9) (tryValue (solveInner fuel) j) s1) as [[x s2]| |] eqn:Hloop;
    try done.
  apply (forEach_mono _ (tryValue (solveInner fuel') j)) in Hloop.
  - by rewrite Hloop.
  - apply tryValue_mono. intros i s' r'. apply IH. lia.
Qed.

(** What a returning call has computed. *)
Lemma solveInner_search fuel idx b c ok s' :
  length b = 81%nat -> 0 <= idx <= 81 ->
  solveInner fuel idx (mkState b c) = Ok (ok, s') ->
  (ok = true /\ searchFrom idx b = Some (board s')) \/
  (ok = false /\ searchFrom idx b = None /\ board s' = b).
Proof.
  intros Hlen Hidx Hrun.
  apply (solveInner_fuel_mono _ (fuel + 82)) in Hrun; [|lia].
  destruct (solveInner_refines (fuel + 82) idx b c) as [c' Href]; [done|done|lia|].
  rewrite Href in Hrun. destruct (searchFrom idx b) as [r|].
  - left. by simplify_eq.
  - right. by simplify_eq.
Qed.

(** The verdict and the board do not depend on the counter, so the same
    model serves the variant without [opsCnt]. *)
Lemma solveInner_counter_irrelevant fuel1 fuel2 idx b c1 c2 ok1 ok2 s1 s2 :
  length b = 81%nat -> 0 <= idx <= 81 ->
  solveInner fuel1 idx (mkState b c1) = Ok (ok1, s1) ->
  solveInner fuel2 idx (mkState b c2) = Ok (ok2, s2) ->
  ok1 = ok2 /\ board s1 = board s2.
Proof.
  intros Hlen Hidx Hrun1 Hrun2.
  apply solveInner_search in Hrun1 as [[-> Hs1]|(-> & Hs1 & ->)]; [| |done..];
    apply solveInner_search in Hrun2 as [[-> Hs2]|(-> & Hs2 & ->)]; try done;
    rewrite Hs1 in Hs2; by simplify_eq.
Qed.

(** ** Soundness of the search *)

Lemma wellFormed_cell b i : wellFormed b -> 0 <= i <= 80 -> 0 <= cell b i <= 9.
Proof.
  intros [Hlen Hdig] Hi. rewrite Forall_lookup in Hdig.
  apply (Hdig (Z.to_nat i)). apply cell_lookup. lia.
Qed.

Lemma searchFrom_solution b r :
  wellFormed b -> noClash b -> searchFrom 0 b = Some r ->
  full r /\ solved r /\ extends b r.
Proof.
  intros Hwf Hb Hs. pose proof Hwf as [Hlen _].
  destruct (searchFrom_frame 0 b r) as (Hlr & Hdelta & Hfull); [lia|done|done|].
  assert (full r) as Hfr by (intros i Hi; apply Hfull; lia).
  split; [done|]. split.
  - apply noClash_full_solved; [done| |done|].
    + by apply (searchFrom_noClash 0 b r).
    + intros i Hi. pose proof (wellFormed_cell b i Hwf Hi).
      specialize (Hfr i Hi). destruct (Hdelta i Hi) as [Heq|(? & ? & ?)]; lia.
  - intros i Hi Hci. destruct (Hdelta i Hi) as [Heq|(? & ? & ?)]; [done|lia].
Qed.

Lemma solution_wellFormed b sol :
  length b = 81%nat -> solution b sol -> wellFormed b /\ noClash b.
Proof.
  intros Hlen [Hsol Hext]. split; [|by apply (extends_noClash b sol)].
  split; [done|]. apply Forall_lookup. intros n c Hn.
  pose proof (lookup_lt_Some _ _ _ Hn) as Hlt.
  assert (cell b (Z.of_nat n) = c) as <-.
  { unfold cell. by rewrite Nat2Z.id, Hn. }
  destruct (decide (cell b (Z.of_nat n) = 0)) as [->|Hnz]; [lia|].
  rewrite <- (Hext (Z.of_nat n)) by (lia || done).
  pose proof (solved_digits sol (Z.of_nat n) Hsol). lia.
Qed.

Lemma findNext_full b c idx :
  length b = 81%nat -> full b -> 0 <= idx <= 81 ->
  findNextFieldNotSetAlready idx (mkState b c) = Ok (81, mkState b c).
Proof.
  intros Hlen Hfull Hidx.
  destruct (findNext_spec idx (mkState b c)) as (j & Hrun & Hj & _ & Hat); [done..|].
  destruct (decide (j = 81)) as [->|Hne]; [done|].
  exfalso. apply (Hfull j); [lia|]. apply Hat. lia.
Qed.

Lemma allOnes_unsolvable sol : ~ solution allOnes sol.
Proof.
  intros [Hsol Hext].
  assert (forall i, 0 <= i <= 80 -> cell allOnes i = 1) as Hone.
  { intros i Hi. unfold cell, allOnes. by rewrite lookup_replicate_2 by lia. }
  assert (forall i, 0 <= i <= 80 -> cell sol i = 1) as Hsol1.
  { intros i Hi. rewrite Hext, Hone; [done..|]. rewrite Hone; lia. }
  apply (solved_noClash sol Hsol 0 1); [lia|by_decide|lia|..].
  - rewrite Hsol1; lia.
  - rewrite !Hsol1; lia.
Qed.

(** ** The parallel fan-out *)

Lemma copy_NewBoard b : length b = 81%nat -> copy NewBoard b = b.
Proof.
  intros Hlen. unfold copy, NewBoard. rewrite length_replicate, Hlen.
  rewrite <- Hlen at 1. rewrite firstn_all.
  rewrite drop_ge by (by rewrite length_replicate). apply app_nil_r.
Qed.

(** A task computes the search on its clone. *)
Lemma task_refines fuel b v idx :
  length b = 81%nat -> 0 <= idx <= 80 -> (Z.to_nat (81 - idx) <= fuel)%nat ->
  exists c', task fuel b v idx
             = Ok (match searchFrom (idx + 1) (<[Z.to_nat idx := v]> b) with
                   | Some r => (true, mkState r c')
                   | None => (false, mkState (<[Z.to_nat idx := v]> b) c')
                   end).
Proof.
  intros Hlen Hidx Hfuel. unfold task, bind. rewrite copy_NewBoard by done.
  rewrite store_in_range by (simpl; lia). cbn [board opsCnt].
  rewrite add_small by lia.
  apply solveInner_refines; [by rewrite length_insert|lia|lia].
Qed.

Lemma launch_refines fuel b idx :
  length b = 81%nat -> 0 <= idx <= 80 -> (Z.to_nat (81 - idx) <= fuel)%nat ->
  forall vals, launch fuel b idx vals
               = Ok ((fun v => task fuel b v idx)
                       <$> filter (fun v => legal b v idx = true) vals).
Proof.
  intros Hlen Hidx Hfuel. induction vals as [|v vals IH]; [done|].
  cbn [launch]. rewrite valuePossibleAt_legal by done. cbn [board]. rewrite IH.
  destruct (legal b v idx) eqn:Hlegal.
  - by rewrite filter_cons_True.
  - rewrite filter_cons_False; [done|]. by rewrite Hlegal.
Qed.

Lemma findNext_at b c idx :
  length b = 81%nat -> 0 <= idx <= 80 -> cell b idx = 0 ->
  (forall k, 0 <= k < idx -> cell b k <> 0) ->
  findNextFieldNotSetAlready 0 (mkState b c) = Ok (idx, mkState b c).
Proof.
  intros Hlen Hidx Hempty Hfirst.
  destruct (findNext_spec 0 (mkState b c)) as (j & Hrun & Hj & Hbefore & Hat); [done|lia|].
  cbn [board] in *. replace idx with j; [done|].
  destruct (decide (j < idx)) as [Hlt|Hge].
  - exfalso. apply (Hfirst j); [lia|]. apply Hat. lia.
  - destruct (decide (idx < j)) as [Hlt|]; [|lia].
    exfalso. apply (Hbefore idx); [lia|done].
Qed.

(** What the parallel [Solve] can print on a board with an empty cell:
    the result of any successful task, or failure when none succeeds. *)
Lemma SolveParallel_spec fuel b idx m :
  length b = 81%nat -> 0 <= idx <= 80 -> cell b idx = 0 ->
  (forall k, 0 <= k < idx -> cell b k <> 0) ->
  (Z.to_nat (81 - idx) <= fuel)%nat ->
  SolveParallel fuel b m <->
  (exists v r, 1 <= v <= 9 /\ legal b v idx = true /\
               searchFrom (idx + 1) (<[Z.to_nat idx := v]> b) = Some r /\ m = Found r) \/
  (m = NotFound /\
   forall v, 1 <= v <= 9 -> legal b v idx = true ->
             searchFrom (idx + 1) (<[Z.to_nat idx := v]> b) = None).
Proof.
  intros Hlen Hidx Hempty Hfirst Hfuel.
  pose proof (findNext_at b 0 idx Hlen Hidx Hempty Hfirst) as Hscan.
  pose proof (launch_refines fuel b idx Hlen Hidx Hfuel (seqZ 1 9)) as Hlaunch.
  assert (forall v, v ∈ filter (fun v => legal b v idx = true) (seqZ 1 9)
                    <-> 1 <= v <= 9 /\ legal b v idx = true) as Hcand.
  { intros v. rewrite list_elem_of_filter, elem_of_seqZ. intuition lia. }
  split.
  - intros Hm.
    destruct Hm as [s Hs|j s ts s' Hs Hne Hts Hin|j s ts Hs Hne Hts Hall];
      rewrite Hscan in Hs; simplify_eq; [lia|..].
    + left. rewrite Hlaunch in Hts. simplify_eq.
      apply list_elem_of_fmap in Hin as (v & Htask & Hv). apply Hcand in Hv as [Hv Hlegal].
      destruct (task_refines fuel b v j Hlen Hidx Hfuel) as [c' Href].
      rewrite Href in Htask.
      destruct (searchFrom (j + 1) (<[Z.to_nat j := v]> b)) as [r|] eqn:Hsearch;
        [|by simplify_eq].
      exists v, r. by simplify_eq.
    + right. split; [done|]. intros v Hv Hlegal.
      rewrite Hlaunch in Hts. simplify_eq.
      rewrite Forall_fmap, Forall_forall in Hall.
      destruct (Hall v) as [s' Htask]; [by apply Hcand|]. simpl in Htask.
      destruct (task_refines fuel b v j Hlen Hidx Hfuel) as [c' Href].
      rewrite Href in Htask.
      by destruct (searchFrom (j + 1) (<[Z.to_nat j := v]> b)).
  - intros [(v & r & Hv & Hlegal & Hsearch & ->)|[-> Hnone]].
    + destruct (task_refines fuel b v idx Hlen Hidx Hfuel) as [c' Href].
      rewrite Hsearch in Href.
      apply (Solve_result fuel b idx (mkState b 0) _ (mkState r c') Hscan ltac:(lia) Hlaunch).
      apply list_elem_of_fmap. exists v. split; [done|]. by apply Hcand.
    + apply (Solve_done fuel b idx (mkState b 0) _ Hscan ltac:(lia) Hlaunch).
      rewrite Forall_fmap, Forall_forall. intros v Hv. apply Hcand in Hv as [Hv Hlegal].
      destruct (task_refines fuel b v idx Hlen Hidx Hfuel) as [c' Href].
      rewrite (Hnone v Hv Hlegal) in Href. simpl. by eexists.
Qed.

(** The sequential search from the first empty cell, candidate by
    candidate. *)
Lemma searchFrom_first_empty b idx :
  length b = 81%nat -> 0 <= idx <= 80 -> cell b idx = 0 ->
  (forall k, 0 <= k < idx -> cell b k <> 0) ->
  searchFrom 0 b
  = firstSome (fun v => if legal b v idx
                        then searchFrom (idx + 1) (<[Z.to_nat idx := v]> b)
                        else None) (seqZ 1 9).
Proof.
  intros Hlen Hidx Hempty Hfirst.
  rewrite (searchFrom_skip b 0 idx) by (lia || done).
  rewrite searchFrom_unfold by done. by rewrite Hempty.
Qed.

(** A successful task returns a solution of the original board. *)
Lemma branch_solution b i v r :
  wellFormed b -> noClash b -> 0 <= i <= 80 -> cell b i = 0 ->
  (forall k, 0 <= k < i -> cell b k <> 0) ->
  1 <= v <= 9 -> legal b v i = true ->
  searchFrom (i + 1) (<[Z.to_nat i := v]> b) = Some r ->
  solution b r.
Proof.
  intros Hwf Hb Hi Hempty Hfirst Hv Hlegal Hs. pose proof Hwf as [Hlen Hdig].
  assert (wellFormed (<[Z.to_nat i := v]> b)) as Hwf1.
  { split; [by rewrite length_insert|]. apply Forall_insert; [done|lia]. }
  assert (noClash (<[Z.to_nat i := v]> b)) as Hb1
    by (apply noClash_insert; [done|lia|lia|done|done]).
  rewrite <- (searchFrom_skip _ 0 (i + 1)) in Hs; [|lia|lia|].
  - destruct (searchFrom_solution _ r Hwf1 Hb1 Hs) as (_ & Hsol & Hext).
    split; [done|]. intros k Hk Hck.
    assert (k <> i) as Hne by (intros ->; done).
    rewrite Hext by (rewrite ?cell_insert_ne by lia; done || lia).
    by rewrite cell_insert_ne by lia.
  - intros k Hk. destruct (decide (k = i)) as [->|Hne].
    + rewrite cell_insert_eq by lia. lia.
    + rewrite cell_insert_ne by lia. apply Hfirst. lia.
Qed.

(** ** Rendering *)

Lemma Itoa_digit d : 0 <= d <= 9 -> Itoa d = String (digitChar d) EmptyString.
Proof.
  intros Hd.
  assert (d = 0 \/ d = 1 \/ d = 2 \/ d = 3 \/ d = 4 \/ d = 5 \/ d = 6 \/ d = 7 \/
          d = 8 \/ d = 9) as Hcases by lia.
  repeat (destruct Hcases as [->|Hcases]; [reflexivity|]). by subst.
Qed.

Lemma append_assoc (s1 s2 s3 : string) : (s1 +:+ s2) +:+ s3 = s1 +:+ (s2 +:+ s3).
Proof.
  induction s1 as [|a s1 IH]; [done|].
  change (String a ((s1 +:+ s2) +:+ s3) = String a (s1 +:+ (s2 +:+ s3))).
  by rewrite IH.
Qed.

Lemma append_empty_r (s : string) : s +:+ "" = s.
Proof.
  induction s as [|a s IH]; [done|].
  change (String a (s +:+ "") = String a s). by rewrite IH.
Qed.

(** The text the loop appends for the indices [vals]. *)
Lemma String_loop_spec s : wellFormed (board s) ->
  forall vals sb, Forall inRange vals ->
  String_loop vals sb s
  = Ok (sb +:+ String.concat ""
                 ((fun i => (if i `mod` 9 =? 0 then newline else "")
                            +:+ cellText (cell (board s) i)) <$> vals), s).
Proof.
  intros Hwf. pose proof Hwf as [Hlen _].
  induction vals as [|i vals IH]; intros sb Hr.
  - simpl. unfold ret. by rewrite append_empty_r.
  - apply Forall_cons in Hr as [Hi Hr]. unfold inRange in Hi.
    cbn [String_loop]. unfold bind. rewrite load_in_range by lia.
    rewrite IH by done. f_equal. f_equal.
    rewrite Itoa_digit by (by apply wellFormed_cell).
    unfold GoInt.rem. rewrite Z.rem_mod_nonneg by lia.
    rewrite fmap_cons.
    assert (forall (l : list string) x, String.concat "" (x :: l) = x +:+ String.concat "" l)
      as Hcat.
    { intros [|y l] x; [|done]. by rewrite append_empty_r. }
    rewrite Hcat. by destruct (i `mod` 9 =? 0); rewrite !append_assoc.
Qed.

(** ** The example puzzle *)

Lemma task_search fuel b v idx ok s' :
  length b = 81%nat -> 0 <= idx <= 80 ->
  task fuel b v idx = Ok (ok, s') ->
  searchFrom (idx + 1) (<[Z.to_nat idx := v]> b) = if ok then Some (board s') else None.
Proof.
  intros Hlen Hidx. unfold task, bind. rewrite copy_NewBoard by done.
  rewrite store_in_range by (simpl; lia). cbn [board opsCnt].
  rewrite add_small by lia. intros Hrun.
  apply solveInner_search in Hrun as [[-> Hs]|(-> & Hs & _)];
    [done|done|by rewrite length_insert|lia].
Qed.

Lemma exampleBoard_run :
  solveInner 82 0 (mkState exampleBoard 0) = Ok (true, mkState solvedExampleBoard 37652).
Proof. vm_compute. reflexivity. Qed.

Lemma exampleBoard_legal :
  legal exampleBoard 1 2 = true /\ legal exampleBoard 2 2 = true /\
  legal exampleBoard 3 2 = false /\ legal exampleBoard 4 2 = true /\
  legal exampleBoard 5 2 = false /\ legal exampleBoard 6 2 = false /\
  legal exampleBoard 7 2 = false /\ legal exampleBoard 8 2 = false /\
  legal exampleBoard 9 2 = false.
Proof. repeat split; vm_compute; reflexivity. Qed.

Lemma exampleBoard_tasks :
  task 82 exampleBoard 1 2 = Ok (false, mkState (<[2%nat := 1]> exampleBoard) 2997) /\
  task 82 exampleBoard 2 2 = Ok (false, mkState (<[2%nat := 2]> exampleBoard) 16866) /\
  task 82 exampleBoard 4 2 = Ok (true, mkState solvedExampleBoard 17785).
Proof. repeat split; vm_compute; reflexivity. Qed.

(** ** A puzzle with a unique solution *)

Lemma solution_step b sol i x :
  length b = 81%nat -> 0 <= i <= 80 -> cell b i = 0 ->
  (forall v, 1 <= v <= 9 -> legal b v i = true -> v = x) ->
  solution b sol -> solution (<[Z.to_nat i := x]> b) sol.
Proof.
  intros Hlen Hi Hempty Honly [Hsol Hext]. split; [done|].
  rewrite <- (Honly (cell sol i)).
  - by apply extends_insert.
  - by apply solved_digits.
  - by apply solution_legal.
Qed.

Lemma full_solution b sol : length b = 81%nat -> full b -> solution b sol -> sol = b.
Proof.
  intros Hlen Hfull [[Hls _] Hext]. apply list_eq. intros n.
  destruct (decide (n < 81)%nat) as [Hn|Hn].
  - rewrite <- (Nat2Z.id n), !cell_lookup by lia. f_equal.
    apply Hext; [lia|]. apply Hfull. lia.
  - rewrite !lookup_ge_None_2 by lia. done.
Qed.

Lemma almostSolvedBoard_unique : uniqueSolution almostSolvedBoard solvedExampleBoard.
Proof.
  assert (wellFormed almostSolvedBoard) as Hwf.
  { split; [reflexivity|]. by_decide. }
  assert (consistent almostSolvedBoard) as Hcons by by_decide.
  assert (solveInner 82 0 (mkState almostSolvedBoard 0)
          = Ok (true, mkState solvedExampleBoard 18)) as Hrun
    by (vm_compute; reflexivity).
  apply solveInner_search in Hrun as [[_ Hs]|[? _]]; [|discriminate|reflexivity|lia].
  cbn [board] in Hs.
  destruct (searchFrom_solution _ _ Hwf (consistent_noClash _ Hcons) Hs) as (Hfull & Hsol & Hext).
  clear Hs. split; [by split|].
  intros sol' Hsol'.
  apply (solution_step _ _ 2 4) in Hsol'; [|reflexivity|lia|reflexivity|].
  - apply (solution_step _ _ 40 5) in Hsol'; [|reflexivity|lia|reflexivity|].
    + apply (solution_step _ _ 80 9) in Hsol'; [|reflexivity|lia|reflexivity|].
      * by apply full_solution in Hsol'.
      * intros v Hv.
        assert (v = 1 \/ v = 2 \/ v = 3 \/ v = 4 \/ v = 5 \/ v = 6 \/ v = 7 \/
                v = 8 \/ v = 9) as Hcases by lia.
        repeat (destruct Hcases as [->|Hcases]; [by vm_compute|]). subst. by vm_compute.
    + intros v Hv.
      assert (v = 1 \/ v = 2 \/ v = 3 \/ v = 4 \/ v = 5 \/ v = 6 \/ v = 7 \/
              v = 8 \/ v = 9) as Hcases by lia.
      repeat (destruct Hcases as [->|Hcases]; [by vm_compute|]). subst. by vm_compute.
  - intros v Hv.
    assert (v = 1 \/ v = 2 \/ v = 3 \/ v = 4 \/ v = 5 \/ v = 6 \/ v = 7 \/
            v = 8 \/ v = 9) as Hcases by lia.
    repeat (destruct Hcases as [->|Hcases]; [by vm_compute|]). subst. by vm_compute.
Qed.

(** ** A consistent board without solution *)

(** The search fails on [stuckBoard], so by completeness it has no
    solution. *)
Lemma stuckBoard_unsolvable sol : ~ solution stuckBoard sol.
Proof.
  intros [Hsol Hext].
  destruct (searchFrom_complete sol Hsol 0 stuckBoard) as [r Hr]; [lia|reflexivity|done|].
  assert (solveInner 82 0 (mkState stuckBoard 0) = Ok (false, mkState stuckBoard 9)) as Hrun
    by (vm_compute; reflexivity).
  apply solveInner_search in Hrun as [[? _]|(_ & Hnone & _)]; [done| |reflexivity|lia].
  congruence.
Qed.

(** * The claims *)

(** C1. On an 81-cell board and for an index [i] in [0,80],
    [valuePossibleAt v i] returns false exactly when [v] already occurs in
    the row of [i] (the cells [j] with [j/9 = i/9]), in its column (the
    cells with [j mod 9 = i mod 9]) or in its 3x3 block (the anchor
    [(i/9)/3*27 + (i mod 9)/3*3] plus one of the nine offsets), and true
    otherwise.  The board is left as it was and [opsCnt] is incremented.
    This holds for every value [v] and whatever cell [i] contains, so in
    particular for an empty cell and a digit 1..9. *)
Theorem valuePossibleAt_iff (b : Board) (c v i : Z) :
  length b = 81%nat -> 0 <= i <= 80 ->
  exists p, valuePossibleAt v i (mkState b c) = Ok (p, mkState b (GoInt.add c 1)) /\
            (p = false <-> inRow b v i \/ inColumn b v i \/ inBlock b v i) /\
            (p = true <-> ~ (inRow b v i \/ inColumn b v i \/ inBlock b v i)).
Proof.
  intros Hlen Hi. exists (legal b v i). split; [|split].
  - by rewrite valuePossibleAt_legal.
  - by apply legal_false_iff.
  - rewrite <- legal_false_iff by done. by destruct (legal b v i).
Qed.

Lemma valuePossibleAt_iff_witness :
  length exampleBoard = 81%nat /\ 0 <= 2 <= 80 /\
  exists p, valuePossibleAt 5 2 (mkState exampleBoard 0)
            = Ok (p, mkState exampleBoard (GoInt.add 0 1)) /\
            (p = false <-> inRow exampleBoard 5 2 \/ inColumn exampleBoard 5 2
                           \/ inBlock exampleBoard 5 2) /\
            (p = true <-> ~ (inRow exampleBoard 5 2 \/ inColumn exampleBoard 5 2
                             \/ inBlock exampleBoard 5 2)).
Proof.
  assert (length exampleBoard = 81%nat) as Hlen by reflexivity.
  assert (0 <= 2 <= 80) as Hi by lia.
  split; [exact Hlen|]. split; [exact Hi|].
  exact (valuePossibleAt_iff exampleBoard 0 5 2 Hlen Hi).
Defined.

(** C2. Solved-board invariant.  For a board of the data model (81 cells
    with values 0..9) whose filled cells do not clash in any row, column
    or block, if [solveInner 0] returns true then the resulting board has
    no empty cell, and every row, every column and every 3x3 block is a
    permutation of 1..9, that is, holds each digit exactly once. *)
Theorem solveInner_success_solved (fuel : nat) (b : Board) (c : Z) (s' : State) :
  wellFormed b -> consistent b ->
  solveInner fuel 0 (mkState b c) = Ok (true, s') ->
  full (board s') /\
  Forall (fun u => values (board s') u ≡ₚ seqZ 1 9 /\ eachDigitOnce (values (board s') u))
         rows /\
  Forall (fun u => values (board s') u ≡ₚ seqZ 1 9 /\ eachDigitOnce (values (board s') u))
         columns /\
  Forall (fun u => values (board s') u ≡ₚ seqZ 1 9 /\ eachDigitOnce (values (board s') u))
         blocks.
Proof.
  intros Hwf Hcons Hrun. pose proof Hwf as [Hlen _].
  destruct (solveInner_search fuel 0 b c true s' Hlen ltac:(lia) Hrun)
    as [[_ Hs]|[? _]]; [|done].
  destruct (searchFrom_solution b (board s') Hwf (consistent_noClash b Hcons) Hs)
    as (Hfull & [_ Hperm] & _).
  split; [done|].
  assert (Forall (fun u => values (board s') u ≡ₚ seqZ 1 9 /\
                           eachDigitOnce (values (board s') u)) units) as Hall.
  { eapply Forall_impl; [exact Hperm|]. intros u Hu. simpl in Hu.
    split; [done|]. by apply Permutation_eachDigitOnce. }
  unfold units in Hall. rewrite !Forall_app in Hall. tauto.
Qed.

Lemma solveInner_success_solved_witness :
  wellFormed almostSolvedBoard /\ consistent almostSolvedBoard /\
  solveInner 82 0 (mkState almostSolvedBoard 0) = Ok (true, mkState solvedExampleBoard 18) /\
  full solvedExampleBoard /\
  Forall (fun u => values solvedExampleBoard u ≡ₚ seqZ 1 9 /\
                   eachDigitOnce (values solvedExampleBoard u)) rows /\
  Forall (fun u => values solvedExampleBoard u ≡ₚ seqZ 1 9 /\
                   eachDigitOnce (values solvedExampleBoard u)) columns /\
  Forall (fun u => values solvedExampleBoard u ≡ₚ seqZ 1 9 /\
                   eachDigitOnce (values solvedExampleBoard u)) blocks.
Proof.
  assert (wellFormed almostSolvedBoard) as Hwf.
  { split; [reflexivity|]. apply (bool_decide_eq_true_1 _). vm_compute. reflexivity. }
  assert (consistent almostSolvedBoard) as Hcons.
  { apply (bool_decide_eq_true_1 _). vm_compute. reflexivity. }
  assert (solveInner 82 0 (mkState almostSolvedBoard 0)
          = Ok (true, mkState solvedExampleBoard 18)) as Hrun.
  { vm_compute. reflexivity. }
  split; [exact Hwf|]. split; [exact Hcons|]. split; [exact Hrun|].
  exact (solveInner_success_solved 82 almostSolvedBoard 0 (mkState solvedExampleBoard 18)
           Hwf Hcons Hrun).
Defined.

(** C3. The parallel decomposition agrees with the sequential search.
    Let [i] be the first empty cell of an 81-cell board [b].  With enough
    fuel, [solveInner 0] on [b] returns true exactly when, for some value
    [v] in 1..9 that [valuePossibleAt] accepts at [i], the task started
    for [v] (a clone of [b] with cell [i] set to [v], then [solveInner]
    from [i+1]) returns true; and it returns false exactly when the
    parallel [Solve] reports failure.  Hence, when [b] has a unique
    solution, the sequential call ends with that solution on the board
    and the parallel [Solve] can print that solution and nothing else. *)
Theorem parallel_decomposition (fuel : nat) (b : Board) (c i : Z) :
  length b = 81%nat -> 0 <= i <= 80 -> cell b i = 0 ->
  (forall k, 0 <= k < i -> cell b k <> 0) ->
  (82 <= fuel)%nat ->
  ((exists s', solveInner fuel 0 (mkState b c) = Ok (true, s')) <->
   (exists v, 1 <= v <= 9 /\
              (exists s1, valuePossibleAt v i (mkState b 0) = Ok (true, s1)) /\
              (exists s', task fuel b v i = Ok (true, s')))) /\
  ((exists s', solveInner fuel 0 (mkState b c) = Ok (false, s')) <->
   SolveParallel fuel b NotFound) /\
  (forall sol, uniqueSolution b sol ->
     (exists c', solveInner fuel 0 (mkState b c) = Ok (true, mkState sol c')) /\
     (forall m, SolveParallel fuel b m <-> m = Found sol)).
Proof.
  intros Hlen Hi Hempty Hfirst Hfuel.
  pose proof (searchFrom_first_empty b i Hlen Hi Hempty Hfirst) as Hseq.
  split; [split|split; [split|]].
  - intros [s' Hrun].
    destruct (solveInner_search fuel 0 b c true s' Hlen ltac:(lia) Hrun)
      as [[_ Hs]|[? _]]; [|done].
    rewrite Hseq in Hs. apply firstSome_Some in Hs as (v & Hv & Hs).
    apply elem_of_seqZ in Hv.
    destruct (legal b v i) eqn:Hlegal; [|done].
    exists v. split; [lia|]. split.
    + eexists. rewrite valuePossibleAt_legal by done. cbn [board]. by rewrite Hlegal.
    + destruct (task_refines fuel b v i Hlen Hi ltac:(lia)) as [c' ->].
      rewrite Hs. by eexists.
  - intros (v & Hv & [s1 Hcheck] & [s' Htask]).
    rewrite valuePossibleAt_legal in Hcheck by done. cbn [board] in Hcheck.
    assert (legal b v i = true) as Hlegal by congruence.
    destruct (task_refines fuel b v i Hlen Hi ltac:(lia)) as [c' Href].
    rewrite Href in Htask.
    destruct (searchFrom (i + 1) (<[Z.to_nat i := v]> b)) as [r|] eqn:Hbranch;
      [|by simplify_eq].
    assert (is_Some (searchFrom 0 b)) as [r' Hs].
    { rewrite Hseq. apply (firstSome_is_Some _ _ v).
      - apply elem_of_seqZ. lia.
      - rewrite Hlegal, Hbranch. by eexists. }
    destruct (solveInner_refines fuel 0 b c Hlen ltac:(lia) ltac:(lia)) as [c0 Hrun].
    rewrite Hs in Hrun. by eexists.
  - intros [s' Hrun].
    destruct (solveInner_search fuel 0 b c false s' Hlen ltac:(lia) Hrun)
      as [[? _]|(_ & Hs & _)]; [done|].
    rewrite Hseq, firstSome_None in Hs.
    apply (SolveParallel_spec fuel b i NotFound Hlen Hi Hempty Hfirst ltac:(lia)).
    right. split; [done|]. intros v Hv Hlegal.
    specialize (Hs v ltac:(apply elem_of_seqZ; lia)). by rewrite Hlegal in Hs.
  - intros Hpar.
    apply (SolveParallel_spec fuel b i NotFound Hlen Hi Hempty Hfirst ltac:(lia)) in Hpar
      as [(v & r & _ & _ & _ & ?)|[_ Hnone]]; [done|].
    assert (searchFrom 0 b = None) as Hs.
    { rewrite Hseq, firstSome_None. intros v Hv. apply elem_of_seqZ in Hv.
      destruct (legal b v i) eqn:Hlegal; [|done]. apply Hnone; [lia|done]. }
    destruct (solveInner_refines fuel 0 b c Hlen ltac:(lia) ltac:(lia)) as [c0 Hrun].
    rewrite Hs in Hrun. by eexists.
  - intros sol [[Hsol Hext] Huniq].
    destruct (solution_wellFormed b sol Hlen (conj Hsol Hext)) as [Hwf Hb].
    assert (forall v r, 1 <= v <= 9 -> legal b v i = true ->
              searchFrom (i + 1) (<[Z.to_nat i := v]> b) = Some r -> r = sol) as Hbranch.
    { intros v r Hv Hlegal Hs. apply Huniq. by apply (branch_solution b i v r). }
    pose proof (solved_digits sol i Hsol Hi) as Hd.
    pose proof (solution_legal b sol i Hlen Hi Hempty Hsol Hext) as Hlegal.
    destruct (searchFrom_complete sol Hsol (i + 1) (<[Z.to_nat i := cell sol i]> b))
      as [r Hs]; [lia|by rewrite length_insert|by apply extends_insert|].
    pose proof (Hbranch _ _ Hd Hlegal Hs) as ->.
    split.
    + destruct (solveInner_refines fuel 0 b c Hlen ltac:(lia) ltac:(lia)) as [c0 Hrun].
      destruct (searchFrom_complete sol Hsol 0 b ltac:(lia) Hlen Hext) as [r Hs0].
      rewrite Hs0 in Hrun. exists c0. rewrite Hrun. do 3 f_equal.
      apply Huniq. destruct (searchFrom_solution b r Hwf Hb Hs0) as (_ & ? & ?). by split.
    + intros m. rewrite (SolveParallel_spec fuel b i m Hlen Hi Hempty Hfirst ltac:(lia)).
      split.
      * intros [(v & r & Hv & Hlv & Hsv & ->)|[-> Hnone]].
        -- by rewrite (Hbranch v r Hv Hlv Hsv).
        -- rewrite (Hnone _ Hd Hlegal) in Hs. done.
      * intros ->. left. by exists (cell sol i), sol.
Qed.

Lemma parallel_decomposition_witness :
  length almostSolvedBoard = 81%nat /\ 0 <= 2 <= 80 /\ cell almostSolvedBoard 2 = 0 /\
  (forall k, 0 <= k < 2 -> cell almostSolvedBoard k <> 0) /\ (82 <= 82)%nat /\
  uniqueSolution almostSolvedBoard solvedExampleBoard /\
  ((exists s', solveInner 82 0 (mkState almostSolvedBoard 0) = Ok (true, s')) <->
   (exists v, 1 <= v <= 9 /\
              (exists s1, valuePossibleAt v 2 (mkState almostSolvedBoard 0) = Ok (true, s1)) /\
              (exists s', task 82 almostSolvedBoard v 2 = Ok (true, s')))) /\
  ((exists s', solveInner 82 0 (mkState almostSolvedBoard 0) = Ok (false, s')) <->
   SolveParallel 82 almostSolvedBoard NotFound) /\
  ((exists c', solveInner 82 0 (mkState almostSolvedBoard 0)
               = Ok (true, mkState solvedExampleBoard c')) /\
   (forall m, SolveParallel 82 almostSolvedBoard m <-> m = Found solvedExampleBoard)).
Proof.
  assert (length almostSolvedBoard = 81%nat) as Hlen by reflexivity.
  assert (0 <= 2 <= 80) as Hi by lia.
  assert (cell almostSolvedBoard 2 = 0) as Hempty by reflexivity.
  assert (forall k, 0 <= k < 2 -> cell almostSolvedBoard k <> 0) as Hfirst.
  { intros k Hk. assert (k = 0 \/ k = 1) as [-> | ->] by lia; vm_compute; discriminate. }
  assert (82 <= 82)%nat as Hfuel by lia.
  pose proof almostSolvedBoard_unique as Huniq.
  destruct (parallel_decomposition 82 almostSolvedBoard 0 2 Hlen Hi Hempty Hfirst Hfuel)
    as (Hiff & Hfail & Hsol).
  split; [exact Hlen|]. split; [exact Hi|]. split; [exact Hempty|].
  split; [exact Hfirst|]. split; [exact Hfuel|]. split; [exact Huniq|].
  split; [exact Hiff|]. split; [exact Hfail|].
  exact (Hsol solvedExampleBoard Huniq).
Defined.

(** C4. Atomicity on failure.  On an 81-cell board and for every start
    index (any machine integer), a call of [solveInner] that returns false
    leaves every cell with the value it had at the call. *)
Theorem solveInner_failure_restores (fuel : nat) (b : Board) (c idx : Z) (s' : State) :
  length b = 81%nat -> GoInt.is_int idx ->
  solveInner fuel idx (mkState b c) = Ok (false, s') ->
  board s' = b.
Proof.
  intros Hlen Hint Hrun.
  destruct (decide (0 <= idx <= 81)) as [Hidx|Hout].
  - destruct (solveInner_search fuel idx b c false s' Hlen Hidx Hrun)
      as [[? _]|(_ & _ & ?)]; done.
  - exfalso. by apply (solveInner_outside fuel idx (mkState b c) Hlen Hint ltac:(lia) (false, s')).
Qed.

Lemma solveInner_failure_restores_witness :
  length stuckBoard = 81%nat /\ GoInt.is_int 0 /\
  solveInner 82 0 (mkState stuckBoard 0) = Ok (false, mkState stuckBoard 9) /\
  board (mkState stuckBoard 9) = stuckBoard.
Proof.
  assert (length stuckBoard = 81%nat) as Hlen by reflexivity.
  assert (GoInt.is_int 0) as Hint
    by (unfold GoInt.is_int, GoInt.min_int, GoInt.max_int; lia).
  assert (solveInner 82 0 (mkState stuckBoard 0) = Ok (false, mkState stuckBoard 9)) as Hrun
    by (vm_compute; reflexivity).
  split; [exact Hlen|]. split; [exact Hint|]. split; [exact Hrun|].
  exact (solveInner_failure_restores 82 stuckBoard 0 0 (mkState stuckBoard 9) Hlen Hint Hrun).
Defined.

(** C5, as the code has it.  On an 81-cell board and from a start index
    in [0,81], [solveInner] returns: fuel [82 - idx] is enough, one unit
    per recursive descent, and every larger amount gives the same result.
    If moreover the board is of the data model, its filled cells do not
    clash and it has no solution, the call from index 0 returns false and
    leaves the board as it was. *)
Theorem solveInner_terminates (b : Board) (c idx : Z) :
  length b = 81%nat -> 0 <= idx <= 81 ->
  exists ok s',
    (forall fuel, (Z.to_nat (82 - idx) <= fuel)%nat ->
                  solveInner fuel idx (mkState b c) = Ok (ok, s')) /\
    (idx = 0 -> wellFormed b -> consistent b -> (forall sol, ~ solution b sol) ->
     ok = false /\ board s' = b).
Proof.
  intros Hlen Hidx.
  destruct (solveInner_refines (Z.to_nat (82 - idx)) idx b c) as [c' Hrun]; [done|done|lia|].
  destruct (searchFrom idx b) as [r|] eqn:Hs.
  - exists true, (mkState r c'). split.
    + intros fuel Hfuel. by apply (solveInner_fuel_mono (Z.to_nat (82 - idx))).
    + intros -> Hwf Hcons Hnone. exfalso.
      destruct (searchFrom_solution b r Hwf (consistent_noClash b Hcons) Hs)
        as (_ & Hsol & Hext).
      by apply (Hnone r).
  - exists false, (mkState b c'). split.
    + intros fuel Hfuel. by apply (solveInner_fuel_mono (Z.to_nat (82 - idx))).
    + done.
Qed.

Lemma solveInner_terminates_witness :
  length stuckBoard = 81%nat /\ 0 <= 0 <= 81 /\
  wellFormed stuckBoard /\ consistent stuckBoard /\
  (forall sol, ~ solution stuckBoard sol) /\
  exists ok s',
    (forall fuel, (Z.to_nat (82 - 0) <= fuel)%nat ->
                  solveInner fuel 0 (mkState stuckBoard 0) = Ok (ok, s')) /\
    ok = false /\ board s' = stuckBoard.
Proof.
  assert (length stuckBoard = 81%nat) as Hlen by reflexivity.
  assert (0 <= 0 <= 81) as Hidx by lia.
  assert (wellFormed stuckBoard) as Hwf.
  { split; [reflexivity|]. apply (bool_decide_eq_true_1 _). vm_compute. reflexivity. }
  assert (consistent stuckBoard) as Hcons.
  { apply (bool_decide_eq_true_1 _). vm_compute. reflexivity. }
  pose proof stuckBoard_unsolvable as Hnone.
  split; [exact Hlen|]. split; [exact Hidx|]. split; [exact Hwf|].
  split; [exact Hcons|]. split; [exact Hnone|].
  destruct (solveInner_terminates stuckBoard 0 0 Hlen Hidx) as (ok & s' & Hrun & Hfail).
  exists ok, s'. split; [exact Hrun|]. exact (Hfail eq_refl Hwf Hcons Hnone).
Defined.

(** C5 as stated fails twice.  From start index 82 the call reads
    [b[81]] and panics, so it never returns; and the filled board of
    ones, which has no solution, is reported solved. *)
Lemma solveInner_terminates_counterexample :
  (length exampleBoard = 81%nat /\
   (forall fuel, solveInner (S fuel) 82 (mkState exampleBoard 0) = Panic) /\
   forall fuel r, solveInner fuel 82 (mkState exampleBoard 0) <> Ok r) /\
  (length allOnes = 81%nat /\ (forall sol, ~ solution allOnes sol) /\
   forall fuel, solveInner (S fuel) 0 (mkState allOnes 0) = Ok (true, mkState allOnes 0)).
Proof.
  assert (GoInt.is_int 82) as Hint
    by (unfold GoInt.is_int, GoInt.min_int, GoInt.max_int; lia).
  split; [split; [done|split]|split; [done|split]].
  - intros fuel. by apply solveInner_outside_panics; [|exact Hint|lia].
  - intros fuel r. by apply solveInner_outside; [|exact Hint|lia].
  - apply allOnes_unsolvable.
  - intros fuel. rewrite solveInner_S, findNext_full; [done|done| |lia].
    intros i Hi. unfold cell, allOnes. rewrite lookup_replicate_2 by lia. simpl. lia.
Qed.

(** C6. The example puzzle.  With fuel 82 or more, [solveInner 0] on
    [exampleBoard] returns true and leaves exactly the solved board of
    the source comment (after 37652 calls of [valuePossibleAt]); the
    sequential [Solve] reports it, and the parallel [Solve] can print
    that board and nothing else. *)
Theorem exampleBoard_solved (fuel : nat) :
  (82 <= fuel)%nat ->
  solveInner fuel 0 (mkState exampleBoard 0)
  = Ok (true, mkState solvedExampleBoard 37652) /\
  Solve fuel (mkState exampleBoard 0)
  = Ok (FoundAfter 37652 solvedExampleBoard, mkState solvedExampleBoard 37652) /\
  (forall m, SolveParallel fuel exampleBoard m <-> m = Found solvedExampleBoard).
Proof.
  intros Hfuel.
  pose proof (solveInner_fuel_mono 82 fuel _ _ _ Hfuel exampleBoard_run) as Hrun.
  split; [done|]. split.
  - unfold Solve, bind, resetOpsCnt, report. cbn [board]. by rewrite Hrun.
  - destruct exampleBoard_tasks as (Ht1 & Ht2 & Ht4).
    apply (task_search 82 exampleBoard 1 2 false _ eq_refl ltac:(lia)) in Ht1.
    apply (task_search 82 exampleBoard 2 2 false _ eq_refl ltac:(lia)) in Ht2.
    apply (task_search 82 exampleBoard 4 2 true _ eq_refl ltac:(lia)) in Ht4.
    change (searchFrom (2 + 1) (<[Z.to_nat 2 := 1]> exampleBoard) = None) in Ht1.
    change (searchFrom (2 + 1) (<[Z.to_nat 2 := 2]> exampleBoard) = None) in Ht2.
    change (searchFrom (2 + 1) (<[Z.to_nat 2 := 4]> exampleBoard)
            = Some solvedExampleBoard) in Ht4.
    destruct exampleBoard_legal as (Hl1 & Hl2 & Hl3 & Hl4 & Hl5 & Hl6 & Hl7 & Hl8 & Hl9).
    intros m.
    rewrite (SolveParallel_spec fuel exampleBoard 2 m eq_refl ltac:(lia) eq_refl);
      [|intros k Hk|lia].
    + split.
      * intros [(v & r & Hv & Hlv & Hsv & ->)|[-> Hnone]].
        -- assert (v = 1 \/ v = 2 \/ v = 3 \/ v = 4 \/ v = 5 \/ v = 6 \/ v = 7 \/
                   v = 8 \/ v = 9) as Hcases by lia.
           repeat (destruct Hcases as [->|Hcases]; [congruence|]). congruence.
        -- specialize (Hnone 4 ltac:(lia) Hl4). congruence.
      * intros ->. left. exists 4, solvedExampleBoard.
        split; [lia|]. split; [exact Hl4|]. split; [exact Ht4|reflexivity].
    + assert (k = 0 \/ k = 1) as [-> | ->] by lia; vm_compute; discriminate.
Qed.

Lemma exampleBoard_solved_witness :
  (82 <= 82)%nat /\
  solveInner 82 0 (mkState exampleBoard 0)
  = Ok (true, mkState solvedExampleBoard 37652) /\
  Solve 82 (mkState exampleBoard 0)
  = Ok (FoundAfter 37652 solvedExampleBoard, mkState solvedExampleBoard 37652) /\
  (forall m, SolveParallel 82 exampleBoard m <-> m = Found solvedExampleBoard).
Proof.
  assert (82 <= 82)%nat as Hfuel by lia.
  split; [exact Hfuel|]. exact (exampleBoard_solved 82 Hfuel).
Defined.

(** C7. On an 81-cell board and from a start index [i] in [0,81],
    [findNextFieldNotSetAlready] returns the smallest index [j] with
    [i <= j <= 80] whose cell is 0, and the sentinel 81 when there is no
    such index; the state is not changed.  On a board without an empty
    cell it returns 81 from every start index. *)
Theorem findNext_first_empty (b : Board) (c i : Z) :
  length b = 81%nat -> 0 <= i <= 81 ->
  exists j, findNextFieldNotSetAlready i (mkState b c) = Ok (j, mkState b c) /\
            ((i <= j <= 80 /\ cell b j = 0 /\ forall k, i <= k < j -> cell b k <> 0)
             \/ (j = 81 /\ forall k, i <= k <= 80 -> cell b k <> 0)) /\
            (full b -> j = 81).
Proof.
  intros Hlen Hi.
  destruct (findNext_spec i (mkState b c)) as (j & Hrun & Hj & Hbefore & Hat); [done..|].
  simpl in *. exists j. split; [done|]. split.
  - destruct (decide (j = 81)) as [->|Hne].
    + right. split; [done|]. intros k Hk. apply Hbefore. lia.
    + left. split; [lia|]. split; [apply Hat; lia|done].
  - intros Hfull. destruct (decide (j = 81)) as [|Hne]; [done|].
    exfalso. apply (Hfull j); [lia|]. apply Hat. lia.
Qed.

Lemma findNext_first_empty_witness :
  length exampleBoard = 81%nat /\ 0 <= 4 <= 81 /\
  exists j, findNextFieldNotSetAlready 4 (mkState exampleBoard 0)
            = Ok (j, mkState exampleBoard 0) /\
            ((4 <= j <= 80 /\ cell exampleBoard j = 0 /\
              forall k, 4 <= k < j -> cell exampleBoard k <> 0)
             \/ (j = 81 /\ forall k, 4 <= k <= 80 -> cell exampleBoard k <> 0)) /\
            (full exampleBoard -> j = 81).
Proof.
  assert (length exampleBoard = 81%nat) as Hlen by reflexivity.
  assert (0 <= 4 <= 81) as Hi by lia.
  split; [exact Hlen|]. split; [exact Hi|].
  exact (findNext_first_empty exampleBoard 0 4 Hlen Hi).
Defined.

(** C8. On a board of the data model, [String] renders the 81 cells in
    row-major order as 9 rows of 9 digits: each row is opened by a line
    feed, each cell is printed as the digit of its value (0 for an empty
    cell) followed by one space, and a line feed ends the text.  The
    state is not changed. *)
Theorem String_renders (b : Board) (c : Z) :
  wellFormed b ->
  String_ (mkState b c) = Ok (render b, mkState b c) /\
  length rows = 9%nat /\ Forall (fun u => length u = 9%nat) rows /\
  concat rows = seqZ 0 81.
Proof.
  intros Hwf. split; [|by_decide].
  unfold String_, bind. rewrite String_loop_spec; [|done|].
  - unfold ret. cbn [board]. vm_compute. reflexivity.
  - apply Forall_seqZ. unfold inRange. lia.
Qed.

Lemma String_renders_witness :
  wellFormed exampleBoard /\
  String_ (mkState exampleBoard 0) = Ok (render exampleBoard, mkState exampleBoard 0) /\
  length rows = 9%nat /\ Forall (fun u => length u = 9%nat) rows /\
  concat rows = seqZ 0 81.
Proof.
  assert (wellFormed exampleBoard) as Hwf.
  { split; [reflexivity|]. apply (bool_decide_eq_true_1 _). vm_compute. reflexivity. }
  split; [exact Hwf|]. exact (String_renders exampleBoard 0 Hwf).
Defined.

(** C9. A board without empty cell is reported solved at once and
    unchecked: [solveInner] returns true with the board and [opsCnt]
    untouched (no call of [valuePossibleAt]), the sequential [Solve]
    reports success after 0 steps, and the parallel [Solve] can only
    report that all values are set already.  Nothing is assumed about the
    rows, columns and blocks of the board. *)
Theorem solveInner_full_board (fuel : nat) (b : Board) (c : Z) :
  length b = 81%nat -> full b ->
  solveInner (S fuel) 0 (mkState b c) = Ok (true, mkState b c) /\
  Solve (S fuel) (mkState b c) = Ok (FoundAfter 0 b, mkState b 0) /\
  (forall m, SolveParallel fuel b m <-> m = AllSetAlready b).
Proof.
  intros Hlen Hfull.
  assert (forall c', solveInner (S fuel) 0 (mkState b c') = Ok (true, mkState b c')) as Hrun.
  { intros c'. rewrite solveInner_S, findNext_full by (done || lia). done. }
  split; [apply Hrun|]. split.
  - unfold Solve, bind, resetOpsCnt, report. cbn [board]. by rewrite Hrun.
  - pose proof (findNext_full b 0 0 Hlen Hfull ltac:(lia)) as Hscan.
    intros m. split.
    + intros Hm. destruct Hm as [s _|idx s ts s' Hscan' Hne|idx s ts Hscan' Hne]; [done|..];
        rewrite Hscan in Hscan'; by simplify_eq.
    + intros ->. by eapply Solve_all_set.
Qed.

Lemma solveInner_full_board_witness :
  length allOnes = 81%nat /\ full allOnes /\ ~ consistent allOnes /\
  solveInner 1 0 (mkState allOnes 0) = Ok (true, mkState allOnes 0) /\
  Solve 1 (mkState allOnes 0) = Ok (FoundAfter 0 allOnes, mkState allOnes 0) /\
  (forall m, SolveParallel 0 allOnes m <-> m = AllSetAlready allOnes).
Proof.
  assert (length allOnes = 81%nat) as Hlen by reflexivity.
  assert (full allOnes) as Hfull.
  { intros i Hi. unfold cell, allOnes. rewrite lookup_replicate_2 by lia. simpl. lia. }
  assert (~ consistent allOnes) as Hbad.
  { apply (bool_decide_eq_false_1 _). vm_compute. reflexivity. }
  split; [exact Hlen|]. split; [exact Hfull|]. split; [exact Hbad|].
  exact (solveInner_full_board 0 allOnes 0 Hlen Hfull).
Defined.

(** C10. Clues are preserved.  On an 81-cell board and for every start
    index, when [solveInner] returns (true or false) every cell that was
    nonzero at the call still holds its value; a cell whose value differs
    was empty at the call and now holds a candidate 1..9. *)
Theorem solveInner_preserves_clues (fuel : nat) (b : Board) (c idx : Z)
    (ok : bool) (s' : State) :
  length b = 81%nat -> GoInt.is_int idx ->
  solveInner fuel idx (mkState b c) = Ok (ok, s') ->
  length (board s') = 81%nat /\
  (forall j, 0 <= j <= 80 -> cell b j <> 0 -> cell (board s') j = cell b j) /\
  (forall j, 0 <= j <= 80 -> cell (board s') j <> cell b j ->
             cell b j = 0 /\ 1 <= cell (board s') j <= 9).
Proof.
  intros Hlen Hint Hrun.
  destruct (decide (0 <= idx <= 81)) as [Hidx|Hout].
  - destruct (solveInner_search fuel idx b c ok s' Hlen Hidx Hrun)
      as [[_ Hs]|(_ & _ & ->)]; [|done].
    destruct (searchFrom_frame idx b (board s')) as (Hlr & Hdelta & _); [done..|].
    split; [done|]. split.
    + intros j Hj Hcj. destruct (Hdelta j Hj) as [Heq|(? & ? & ?)]; [done|lia].
    + intros j Hj Hne. destruct (Hdelta j Hj) as [Heq|(? & ? & ?)]; [done|lia].
  - exfalso. by apply (solveInner_outside fuel idx (mkState b c) Hlen Hint ltac:(lia) (ok, s')).
Qed.

Lemma solveInner_preserves_clues_witness :
  length almostSolvedBoard = 81%nat /\ GoInt.is_int 0 /\
  solveInner 82 0 (mkState almostSolvedBoard 0) = Ok (true, mkState solvedExampleBoard 18) /\
  length solvedExampleBoard = 81%nat /\
  (forall j, 0 <= j <= 80 -> cell almostSolvedBoard j <> 0 ->
             cell solvedExampleBoard j = cell almostSolvedBoard j) /\
  (forall j, 0 <= j <= 80 -> cell solvedExampleBoard j <> cell almostSolvedBoard j ->
             cell almostSolvedBoard j = 0 /\ 1 <= cell solvedExampleBoard j <= 9).
Proof.
  assert (length almostSolvedBoard = 81%nat) as Hlen by reflexivity.
  assert (GoInt.is_int 0) as Hint
    by (unfold GoInt.is_int, GoInt.min_int, GoInt.max_int; lia).
  assert (solveInner 82 0 (mkState almostSolvedBoard 0)
          = Ok (true, mkState solvedExampleBoard 18)) as Hrun
    by (vm_compute; reflexivity).
  split; [exact Hlen|]. split; [exact Hint|]. split; [exact Hrun|].
  exact (solveInner_preserves_clues 82 almostSolvedBoard 0 0 true
           (mkState solvedExampleBoard 18) Hlen Hint Hrun).
Defined.

(** * Further properties

    Properties of the code beyond the claims: the coordinate accessors,
    the edges of the legality check, what the backtracker guarantees to
    its callers, and the two [Solve] entry points. *)

(** ** [Set] and [Get] *)

Lemma Get_unfold x y s :
  Get x y s = if (coordIdx x y <? 0) || (80 <? coordIdx x y) then Panic
              else load (coordIdx x y) s.
Proof. unfold Get, coordIdx, panic. by destruct (_ || _). Qed.

Lemma Set_unfold x y v s :
  Set_ x y v s = if (coordIdx x y <? 0) || (80 <? coordIdx x y) then Panic
                 else store (coordIdx x y) v s.
Proof. unfold Set_, coordIdx, panic. by destruct (_ || _). Qed.

Lemma load_Ok i s c s' :
  load i s = Ok (c, s') <-> 0 <= i /\ board s !! Z.to_nat i = Some c /\ s' = s.
Proof.
  unfold load. destruct (i <? 0) eqn:E.
  - split; [done|]. intros (? & _). lia.
  - destruct (board s !! Z.to_nat i) as [c0|].
    + split; [intros [= -> ->]; repeat split; lia|]. by intros (_ & [= ->] & ->).
    + split; [done|]. by intros (_ & ? & _).
Qed.

Lemma store_Ok i v s s' :
  store i v s = Ok (tt, s') <->
  0 <= i < Z.of_nat (length (board s)) /\
  s' = mkState (<[Z.to_nat i := v]> (board s)) (opsCnt s).
Proof.
  unfold store. destruct (i <? 0) eqn:E.
  - split; [done|]. intros (? & _). lia.
  - destruct (board s !! Z.to_nat i) as [c0|] eqn:Hl.
    + apply lookup_lt_Some in Hl. split; [intros [= <-]; split; [lia|done]|]. by intros (_ & ->).
    + apply lookup_ge_None in Hl. split; [done|]. intros (? & _). lia.
Qed.

Lemma coordIdx_small x y :
  -1000000 <= x <= 1000000 -> -1000000 <= y <= 1000000 -> coordIdx x y = x + y * 9.
Proof.
  intros Hx Hy. unfold coordIdx, GoInt.add, GoInt.mul.
  rewrite !wrap_id; unfold GoInt.is_int, GoInt.min_int, GoInt.max_int;
    rewrite ?wrap_id; unfold GoInt.is_int, GoInt.min_int, GoInt.max_int; lia.
Qed.

(** X1. Round trip.  After a [Set(x, y, v)] that did not panic,
    [Get(x, y)] returns [v]; [Set] changes neither the length of the
    board nor [opsCnt]. *)
Theorem Set_Get_roundtrip (x y v : Z) (s s' : State) :
  Set_ x y v s = Ok (tt, s') ->
  Get x y s' = Ok (v, s') /\ opsCnt s' = opsCnt s /\
  length (board s') = length (board s).
Proof.
  rewrite Set_unfold, Get_unfold.
  destruct (_ || _); [done|]. intros [Hi ->]%store_Ok. cbn [board opsCnt].
  split; [|split; [done|apply length_insert]].
  apply load_Ok. cbn [board]. split; [lia|]. split; [|done].
  apply list_lookup_insert_eq. lia.
Qed.

Lemma Set_Get_roundtrip_witness :
  Set_ 2 0 4 (mkState exampleBoard 0) = Ok (tt, mkState (<[2%nat := 4]> exampleBoard) 0) /\
  Get 2 0 (mkState (<[2%nat := 4]> exampleBoard) 0)
  = Ok (4, mkState (<[2%nat := 4]> exampleBoard) 0) /\
  opsCnt (mkState (<[2%nat := 4]> exampleBoard) 0) = opsCnt (mkState exampleBoard 0) /\
  length (board (mkState (<[2%nat := 4]> exampleBoard) 0))
  = length (board (mkState exampleBoard 0)).
Proof.
  assert (Set_ 2 0 4 (mkState exampleBoard 0)
          = Ok (tt, mkState (<[2%nat := 4]> exampleBoard) 0)) as Hset by reflexivity.
  split; [exact Hset|].
  exact (Set_Get_roundtrip 2 0 4 _ _ Hset).
Defined.

(** X2. Frame of [Set].  A [Set(x, y, v)] that did not panic leaves every
    other cell as it was: a [Get(x', y')] at a different linear index
    returns after the [Set] what it returned before. *)
Theorem Set_Get_other (x y v x' y' c : Z) (s s' : State) :
  Set_ x y v s = Ok (tt, s') ->
  coordIdx x' y' <> coordIdx x y ->
  Get x' y' s = Ok (c, s) ->
  Get x' y' s' = Ok (c, s').
Proof.
  rewrite Set_unfold, !Get_unfold.
  destruct (_ || _); [done|]. intros [Hi ->]%store_Ok Hne.
  destruct (_ || _); [done|]. intros (Hj & Hc & _)%load_Ok.
  apply load_Ok. cbn [board]. split; [done|]. split; [|done].
  rewrite list_lookup_insert_ne; [done|lia].
Qed.

Lemma Set_Get_other_witness :
  Set_ 2 0 4 (mkState exampleBoard 0) = Ok (tt, mkState (<[2%nat := 4]> exampleBoard) 0) /\
  coordIdx 4 0 <> coordIdx 2 0 /\
  Get 4 0 (mkState exampleBoard 0) = Ok (7, mkState exampleBoard 0) /\
  Get 4 0 (mkState (<[2%nat := 4]> exampleBoard) 0)
  = Ok (7, mkState (<[2%nat := 4]> exampleBoard) 0).
Proof.
  assert (Set_ 2 0 4 (mkState exampleBoard 0)
          = Ok (tt, mkState (<[2%nat := 4]> exampleBoard) 0)) as Hset by reflexivity.
  assert (coordIdx 4 0 <> coordIdx 2 0) as Hne by (vm_compute; discriminate).
  assert (Get 4 0 (mkState exampleBoard 0) = Ok (7, mkState exampleBoard 0)) as Hget
    by reflexivity.
  split; [exact Hset|]. split; [exact Hne|]. split; [exact Hget|].
  exact (Set_Get_other 2 0 4 4 0 7 _ _ Hset Hne Hget).
Defined.

(** X3. Bounds.  On any slice, [Get] and [Set] panic exactly when the
    linear index [x + y*9] is negative, greater than 80, or not below the
    length of the slice. *)
Theorem Get_Set_panic (x y v : Z) (s : State) :
  (Get x y s = Panic <->
   coordIdx x y < 0 \/ 80 < coordIdx x y \/ Z.of_nat (length (board s)) <= coordIdx x y) /\
  (Set_ x y v s = Panic <->
   coordIdx x y < 0 \/ 80 < coordIdx x y \/ Z.of_nat (length (board s)) <= coordIdx x y).
Proof.
  rewrite Get_unfold, Set_unfold.
  destruct ((coordIdx x y <? 0) || (80 <? coordIdx x y)) eqn:E.
  - apply orb_true_iff in E. split; (split; [intros _; lia|done]).
  - apply orb_false_iff in E as [E1 E2]. unfold load, store. rewrite E1.
    destruct (board s !! Z.to_nat (coordIdx x y)) as [c|] eqn:Hl.
    + apply lookup_lt_Some in Hl. split; (split; [done|lia]).
    + apply lookup_ge_None in Hl. split; (split; [lia|done]).
Qed.

(** X4. Only the linear index is checked, not the coordinates one by
    one: two coordinate pairs with the same [x + y*9] behave alike in
    [Get] and in [Set], so column 9 of a row is column 0 of the next. *)
Theorem Get_Set_alias (x y x' y' v : Z) (s : State) :
  -1000000 <= x <= 1000000 -> -1000000 <= y <= 1000000 ->
  -1000000 <= x' <= 1000000 -> -1000000 <= y' <= 1000000 ->
  x + y * 9 = x' + y' * 9 ->
  Get x y s = Get x' y' s /\ Set_ x y v s = Set_ x' y' v s.
Proof.
  intros Hx Hy Hx' Hy' Heq.
  rewrite !Get_unfold, !Set_unfold, !coordIdx_small by done. by rewrite Heq.
Qed.

Lemma Get_Set_alias_witness :
  (-1000000 <= 9 <= 1000000 /\ -1000000 <= 0 <= 1000000 /\
   -1000000 <= 0 <= 1000000 /\ -1000000 <= 1 <= 1000000 /\ 9 + 0 * 9 = 0 + 1 * 9) /\
  Get 9 0 (mkState exampleBoard 0) = Get 0 1 (mkState exampleBoard 0) /\
  Set_ 9 0 7 (mkState exampleBoard 0) = Set_ 0 1 7 (mkState exampleBoard 0).
Proof.
  assert (-1000000 <= 9 <= 1000000) as H9 by lia.
  assert (-1000000 <= 0 <= 1000000) as H0 by lia.
  assert (-1000000 <= 1 <= 1000000) as H1 by lia.
  assert (9 + 0 * 9 = 0 + 1 * 9) as Heq by lia.
  split; [by repeat split|].
  exact (Get_Set_alias 9 0 0 1 7 (mkState exampleBoard 0) H9 H0 H0 H1 Heq).
Defined.

(** ** Edges of [valuePossibleAt] *)

Lemma forEach_returnFalseIfEq_result (f : Z -> Z) s v idxs r s' :
  forEach idxs (fun i => returnFalseIfEq v (f i)) s = Ok (r, s') ->
  r = Some false \/ r = None.
Proof.
  induction idxs as [|j idxs IH]; simpl.
  - intros [= <- _]. by right.
  - unfold bind, returnFalseIfEq at 1. unfold bind, load.
    destruct (f j <? 0); [done|]. destruct (board s !! Z.to_nat (f j)) as [c|]; [|done].
    destruct (c =? v); [intros [= <- _]; by left|]. apply IH.
Qed.

(** At a negative index the row loop may still find [v] in the first
    row; if it does not, the column loop reads a negative index. *)
Lemma valuePossibleAt_negative v idx s :
  GoInt.is_int idx -> idx < 0 ->
  forall s', valuePossibleAt v idx s <> Ok (true, s').
Proof.
  unfold GoInt.is_int, GoInt.min_int, GoInt.max_int. intros Hint Hneg s'.
  assert (GoInt.mul (GoInt.quot idx 9) 9 = idx - idx `rem` 9) as Hstart.
  { unfold GoInt.mul, GoInt.quot.
    rewrite (wrap_id (idx `quot` 9))
      by (unfold GoInt.is_int, GoInt.min_int, GoInt.max_int; dlia).
    rewrite wrap_id by (unfold GoInt.is_int, GoInt.min_int, GoInt.max_int; dlia).
    dlia. }
  unfold valuePossibleAt, bind, incrOpsCnt. set (s1 := mkState _ _). rewrite Hstart.
  destruct (forEach (seqZ 0 9) _ s1) as [[[x|] s2]| |] eqn:Hrow; try done.
  - apply forEach_returnFalseIfEq_result in Hrow as [?|?]; by simplify_eq.
  - assert (idx `rem` 9 < 0) as Hcol.
    { destruct (decide (idx `rem` 9 = 0)) as [Hz|Hnz]; [|dlia].
      exfalso. revert Hrow. rewrite seqZ_0_9. cbn [forEach].
      unfold bind, returnFalseIfEq at 1. unfold bind.
      rewrite load_out_of_range; [done|]. left.
      unfold GoInt.add.
      rewrite wrap_id by (unfold GoInt.is_int, GoInt.min_int, GoInt.max_int; lia). lia. }
    rewrite seqZ_0_9. cbn [forEach]. unfold bind, returnFalseIfEq at 1. unfold bind.
    rewrite load_out_of_range; [done|]. left.
    unfold GoInt.rem. change (GoInt.mul 0 9) with 0.
    rewrite add_small; [lia|dlia|lia].
Qed.

(** X5. [valuePossibleAt] only reads the board.  Whatever the board, the
    value and the index, a call that returns leaves every cell as it was
    and adds one to [opsCnt]. *)
Theorem valuePossibleAt_reads_only (v idx : Z) (s : State) (p : bool) (s' : State) :
  valuePossibleAt v idx s = Ok (p, s') ->
  board s' = board s /\ opsCnt s' = GoInt.add (opsCnt s) 1.
Proof.
  unfold valuePossibleAt, bind, incrOpsCnt.
  set (s1 := mkState _ _).
  destruct (forEach _ _ s1) as [[[x|] s2]| |] eqn:Hrow; try done;
    apply forEach_returnFalseIfEq_frame in Hrow as ->; [by intros [= _ <-]|].
  destruct (forEach _ _ s1) as [[[x|] s2]| |] eqn:Hcol; try done;
    apply forEach_returnFalseIfEq_frame in Hcol as ->; [by intros [= _ <-]|].
  destruct (forEach _ _ s1) as [[[x|] s2]| |] eqn:Hblock; try done;
    apply forEach_returnFalseIfEq_frame in Hblock as ->; by intros [= _ <-].
Qed.

Lemma valuePossibleAt_reads_only_witness :
  valuePossibleAt 5 2 (mkState exampleBoard 0) = Ok (false, mkState exampleBoard 1) /\
  board (mkState exampleBoard 1) = board (mkState exampleBoard 0) /\
  opsCnt (mkState exampleBoard 1) = GoInt.add (opsCnt (mkState exampleBoard 0)) 1.
Proof.
  assert (valuePossibleAt 5 2 (mkState exampleBoard 0) = Ok (false, mkState exampleBoard 1))
    as Hrun by reflexivity.
  split; [exact Hrun|].
  exact (valuePossibleAt_reads_only 5 2 _ false _ Hrun).
Defined.

(** X6. No value is ever possible outside the board.  On an 81-cell
    board and for an index outside [0,80], [valuePossibleAt] never
    returns true: past the end it panics, and at a negative index it
    either panics or returns false (when the row loop meets [v] before
    the column loop reads a negative index). *)
Theorem valuePossibleAt_outside_never_true (v idx : Z) (s s' : State) (p : bool) :
  length (board s) = 81%nat -> GoInt.is_int idx -> idx < 0 \/ 80 < idx ->
  valuePossibleAt v idx s = Ok (p, s') ->
  p = false /\ idx < 0.
Proof.
  intros Hlen Hint [Hneg|Hpast] Hrun.
  - split; [|done]. destruct p; [|done].
    by apply valuePossibleAt_negative in Hrun.
  - by rewrite valuePossibleAt_past_end in Hrun by (done || lia).
Qed.

Lemma valuePossibleAt_outside_never_true_witness :
  length (board (mkState exampleBoard 0)) = 81%nat /\ GoInt.is_int (-1) /\
  (-1 < 0 \/ 80 < -1) /\
  valuePossibleAt 5 (-1) (mkState exampleBoard 0) = Ok (false, mkState exampleBoard 1) /\
  false = false /\ -1 < 0.
Proof.
  assert (length (board (mkState exampleBoard 0)) = 81%nat) as Hlen by reflexivity.
  assert (GoInt.is_int (-1)) as Hint
    by (unfold GoInt.is_int, GoInt.min_int, GoInt.max_int; lia).
  assert (-1 < 0 \/ 80 < -1) as Hout by (left; lia).
  assert (valuePossibleAt 5 (-1) (mkState exampleBoard 0)
          = Ok (false, mkState exampleBoard 1)) as Hrun by reflexivity.
  split; [exact Hlen|]. split; [exact Hint|]. split; [exact Hout|]. split; [exact Hrun|].
  exact (valuePossibleAt_outside_never_true 5 (-1) _ _ false Hlen Hint Hout Hrun).
Defined.

(** X7. The value a cell holds is never possible at that cell: the row
    loop examines the cell itself.  In particular 0 is not possible at an
    empty cell, and the check cannot be used to validate a filled cell. *)
Theorem valuePossibleAt_own_value (b : Board) (c idx : Z) :
  length b = 81%nat -> 0 <= idx <= 80 ->
  valuePossibleAt (cell b idx) idx (mkState b c) = Ok (false, mkState b (GoInt.add c 1)).
Proof.
  intros Hlen Hidx. rewrite valuePossibleAt_legal by done. cbn [board opsCnt].
  do 2 f_equal. apply legal_false_iff; [done..|]. left.
  exists idx. split; [done|]. split; [done|]. apply cell_lookup. lia.
Qed.

Lemma valuePossibleAt_own_value_witness :
  length exampleBoard = 81%nat /\ 0 <= 2 <= 80 /\
  valuePossibleAt (cell exampleBoard 2) 2 (mkState exampleBoard 0)
  = Ok (false, mkState exampleBoard (GoInt.add 0 1)).
Proof.
  assert (length exampleBoard = 81%nat) as Hlen by reflexivity.
  assert (0 <= 2 <= 80) as Hidx by lia.
  split; [exact Hlen|]. split; [exact Hidx|].
  exact (valuePossibleAt_own_value exampleBoard 0 2 Hlen Hidx).
Defined.

(** ** Legal moves and fresh boards *)

(** Consistency from the cell-by-cell form. *)
Lemma NoDup_filter_fmap (f : Z -> Z) (P : Z -> Prop) `{!forall x, Decision (P x)} u :
  NoDup u ->
  (forall i k, i ∈ u -> k ∈ u -> i <> k -> P (f i) -> f k <> f i) ->
  NoDup (filter P (f <$> u)).
Proof.
  induction 1 as [|a u Ha Hnd IH]; intros Hinj; [constructor|].
  rewrite fmap_cons.
  assert (NoDup (filter P (f <$> u))) as Hrest.
  { apply IH. intros i k Hi Hk. apply Hinj; by right. }
  destruct (decide (P (f a))) as [HP|HP].
  - rewrite filter_cons_True by done. constructor; [|done].
    intros Hin. apply (list_elem_of_filter P) in Hin as [_ Hin].
    apply list_elem_of_fmap in Hin as (k & Heq & Hk).
    apply (Hinj a k); [left|by right| |done|done]. intros ->. done.
  - by rewrite filter_cons_False.
Qed.

Lemma noClash_consistent b : noClash b -> consistent b.
Proof.
  intros Hb. unfold consistent. rewrite Forall_forall. intros u Hu.
  pose proof units_shape as Hshape. rewrite Forall_forall in Hshape.
  destruct (Hshape u Hu) as (_ & Hnd & Hr & Hsc).
  rewrite Forall_forall in Hr. rewrite Forall_forall in Hsc.
  apply NoDup_filter_fmap; [done|]. intros i k Hi Hk Hne Hnz.
  apply Hb; [by apply Hr| |done|done].
  specialize (Hsc i Hi). rewrite Forall_forall in Hsc. by apply Hsc.
Qed.

(** X8. Legal moves keep the board consistent.  If no nonzero value
    occurs twice in a row, column or block, and [valuePossibleAt] accepts
    a nonzero [v] at the index of [(x, y)], then after [Set(x, y, v)] still
    no nonzero value occurs twice, whether the cell was empty or not. *)
Theorem legal_move_keeps_consistent (b : Board) (c x y v : Z) (s1 s' : State) :
  length b = 81%nat -> consistent b -> v <> 0 ->
  valuePossibleAt v (coordIdx x y) (mkState b c) = Ok (true, s1) ->
  Set_ x y v (mkState b c) = Ok (tt, s') ->
  consistent (board s').
Proof.
  intros Hlen Hcons Hv Hcheck Hset. rewrite Set_unfold in Hset.
  destruct ((coordIdx x y <? 0) || (80 <? coordIdx x y)) eqn:E; [done|].
  apply orb_false_iff in E as [E1 E2].
  rewrite valuePossibleAt_legal in Hcheck by (done || lia). cbn [board] in Hcheck.
  rewrite store_in_range in Hset by (cbn [board]; lia). simplify_eq. cbn [board].
  apply noClash_consistent, noClash_insert; [done|lia|done| |by apply consistent_noClash].
  congruence.
Qed.

Lemma legal_move_keeps_consistent_witness :
  length exampleBoard = 81%nat /\ consistent exampleBoard /\ 4 <> 0 /\
  valuePossibleAt 4 (coordIdx 2 0) (mkState exampleBoard 0)
  = Ok (true, mkState exampleBoard 1) /\
  Set_ 2 0 4 (mkState exampleBoard 0) = Ok (tt, mkState (<[2%nat := 4]> exampleBoard) 0) /\
  consistent (board (mkState (<[2%nat := 4]> exampleBoard) 0)).
Proof.
  assert (length exampleBoard = 81%nat) as Hlen by reflexivity.
  assert (consistent exampleBoard) as Hcons.
  { apply (bool_decide_eq_true_1 _). vm_compute. reflexivity. }
  assert (4 <> 0) as Hv by lia.
  assert (valuePossibleAt 4 (coordIdx 2 0) (mkState exampleBoard 0)
          = Ok (true, mkState exampleBoard 1)) as Hcheck by reflexivity.
  assert (Set_ 2 0 4 (mkState exampleBoard 0)
          = Ok (tt, mkState (<[2%nat := 4]> exampleBoard) 0)) as Hset by reflexivity.
  split; [exact Hlen|]. split; [exact Hcons|]. split; [exact Hv|].
  split; [exact Hcheck|]. split; [exact Hset|].
  exact (legal_move_keeps_consistent exampleBoard 0 2 0 4 _ _ Hlen Hcons Hv Hcheck Hset).
Defined.

Lemma cell_NewBoard j : cell NewBoard j = 0.
Proof.
  unfold cell, NewBoard. destruct (decide (Z.to_nat j < 81)%nat).
  - by rewrite lookup_replicate_2.
  - by rewrite lookup_ge_None_2 by (rewrite length_replicate; lia).
Qed.

Lemma occurs_NewBoard v idxs : idxs <> [] -> occurs NewBoard v idxs = (0 =? v).
Proof.
  unfold occurs. induction idxs as [|j idxs IH]; [done|]. intros _. simpl.
  rewrite cell_NewBoard. destruct idxs as [|k idxs]; [apply orb_false_r|].
  rewrite IH by done. apply orb_diag.
Qed.

(** X9. A fresh board.  On [NewBoard()] every cell of the grid reads 0
    through [Get], and [valuePossibleAt] accepts every value but 0 at
    every index. *)
Theorem NewBoard_fresh (c x y v idx : Z) :
  0 <= coordIdx x y <= 80 -> 0 <= idx <= 80 ->
  Get x y (mkState NewBoard c) = Ok (0, mkState NewBoard c) /\
  valuePossibleAt v idx (mkState NewBoard c)
  = Ok (negb (v =? 0), mkState NewBoard (GoInt.add c 1)).
Proof.
  intros Hxy Hidx. split.
  - rewrite Get_unfold.
    destruct ((coordIdx x y <? 0) || (80 <? coordIdx x y)) eqn:E;
      [apply orb_true_iff in E; lia|].
    rewrite load_in_range by (cbn [board]; unfold NewBoard; rewrite length_replicate; lia).
    by rewrite cell_NewBoard.
  - rewrite valuePossibleAt_legal by done. cbn [board opsCnt]. do 2 f_equal.
    unfold legal. rewrite !occurs_NewBoard by done.
    rewrite Z.eqb_sym. by destruct (v =? 0).
Qed.

Lemma NewBoard_fresh_witness :
  0 <= coordIdx 3 4 <= 80 /\ 0 <= 39 <= 80 /\
  Get 3 4 (mkState NewBoard 0) = Ok (0, mkState NewBoard 0) /\
  valuePossibleAt 7 39 (mkState NewBoard 0)
  = Ok (negb (7 =? 0), mkState NewBoard (GoInt.add 0 1)).
Proof.
  assert (0 <= coordIdx 3 4 <= 80) as Hxy by (vm_compute; split; discriminate).
  assert (0 <= 39 <= 80) as Hidx by lia.
  split; [exact Hxy|]. split; [exact Hidx|].
  exact (NewBoard_fresh 0 3 4 7 39 Hxy Hidx).
Defined.

(** ** The backtracker beyond the claims *)

(** X10. [solveInner] never goes back before its start index.  A call
    from [idx] that returns leaves every cell before [idx] as it was,
    empty ones included; if it returns true, every cell from [idx] on is
    filled. *)
Theorem solveInner_index_frame (fuel : nat) (b : Board) (c idx : Z) (ok : bool) (s' : State) :
  length b = 81%nat -> 0 <= idx <= 81 ->
  solveInner fuel idx (mkState b c) = Ok (ok, s') ->
  (forall j, 0 <= j < idx -> cell (board s') j = cell b j) /\
  (ok = true -> forall j, idx <= j <= 80 -> cell (board s') j <> 0).
Proof.
  intros Hlen Hidx Hrun.
  destruct (solveInner_search fuel idx b c ok s' Hlen Hidx Hrun)
    as [[-> Hs]|(-> & _ & ->)]; [|done].
  destruct (searchFrom_frame idx b (board s')) as (_ & Hdelta & Hfull); [done..|].
  split; [|done]. intros j Hj.
  destruct (Hdelta j ltac:(lia)) as [Heq|(_ & ? & _)]; [done|lia].
Qed.

Lemma solveInner_index_frame_witness :
  length almostSolvedBoard = 81%nat /\ 0 <= 3 <= 81 /\
  solveInner 82 3 (mkState almostSolvedBoard 0)
  = Ok (true, mkState (<[2%nat := 0]> solvedExampleBoard) 14) /\
  (forall j, 0 <= j < 3 ->
     cell (board (mkState (<[2%nat := 0]> solvedExampleBoard) 14)) j
     = cell almostSolvedBoard j) /\
  (true = true -> forall j, 3 <= j <= 80 ->
     cell (board (mkState (<[2%nat := 0]> solvedExampleBoard) 14)) j <> 0).
Proof.
  assert (length almostSolvedBoard = 81%nat) as Hlen by reflexivity.
  assert (0 <= 3 <= 81) as Hidx by lia.
  assert (solveInner 82 3 (mkState almostSolvedBoard 0)
          = Ok (true, mkState (<[2%nat := 0]> solvedExampleBoard) 14)) as Hrun
    by (vm_compute; reflexivity).
  split; [exact Hlen|]. split; [exact Hidx|]. split; [exact Hrun|].
  exact (solveInner_index_frame 82 almostSolvedBoard 0 3 true _ Hlen Hidx Hrun).
Defined.

(** X11. Solving twice changes nothing.  After a successful run from
    index 0, a second run on the resulting state returns true at once:
    same board, same counter. *)
Theorem solveInner_again (fuel fuel' : nat) (b : Board) (c : Z) (s' : State) :
  length b = 81%nat ->
  solveInner fuel 0 (mkState b c) = Ok (true, s') ->
  solveInner (S fuel') 0 s' = Ok (true, s').
Proof.
  intros Hlen Hrun.
  destruct (solveInner_search fuel 0 b c true s' Hlen ltac:(lia) Hrun)
    as [[_ Hs]|[? _]]; [|done].
  destruct (searchFrom_frame 0 b (board s')) as (Hlr & _ & Hfull); [lia|done..|].
  destruct s' as [r c']. cbn [board] in *.
  rewrite solveInner_S, (findNext_full r c' 0); [done|done| |lia].
  intros i Hi. apply Hfull. lia.
Qed.

Lemma solveInner_again_witness :
  length almostSolvedBoard = 81%nat /\
  solveInner 82 0 (mkState almostSolvedBoard 0) = Ok (true, mkState solvedExampleBoard 18) /\
  solveInner 1 0 (mkState solvedExampleBoard 18) = Ok (true, mkState solvedExampleBoard 18).
Proof.
  assert (length almostSolvedBoard = 81%nat) as Hlen by reflexivity.
  assert (solveInner 82 0 (mkState almostSolvedBoard 0)
          = Ok (true, mkState solvedExampleBoard 18)) as Hrun by (vm_compute; reflexivity).
  split; [exact Hlen|]. split; [exact Hrun|].
  exact (solveInner_again 82 0 almostSolvedBoard 0 _ Hlen Hrun).
Defined.

Lemma firstSome_seqZ_least {A} (f : Z -> option A) n : forall m r,
  firstSome f (seqZ m (Z.of_nat n)) = Some r ->
  exists v, m <= v < m + Z.of_nat n /\ f v = Some r /\
            forall v', m <= v' < v -> f v' = None.
Proof.
  induction n as [|n IH]; intros m r; [done|].
  rewrite seqZ_cons by lia. cbn [firstSome].
  destruct (f m) as [r'|] eqn:Hf.
  - intros [= ->]. exists m. split; [lia|]. split; [done|]. intros v' Hv'. lia.
  - replace (Z.pred (Z.of_nat (S n))) with (Z.of_nat n) by lia.
    intros Hrest. destruct (IH _ _ Hrest) as (v & Hv & Hfv & Hbefore).
    exists v. split; [lia|]. split; [done|]. intros v' Hv'.
    destruct (decide (v' = m)) as [->|Hne]; [done|]. apply Hbefore. lia.
Qed.

Lemma cells_eq (r sol : Board) :
  length r = 81%nat -> length sol = 81%nat ->
  (forall k, 0 <= k <= 80 -> cell r k = cell sol k) -> r = sol.
Proof.
  intros Hr Hs Hall. apply list_eq. intros n.
  destruct (decide (n < 81)%nat) as [Hn|Hn].
  - rewrite <- (Nat2Z.id n), !cell_lookup by lia. f_equal. apply Hall. lia.
  - by rewrite !lookup_ge_None_2 by lia.
Qed.

(** The search takes the least digit that leads to a solution, cell after
    cell, so its result comes first among the solutions. *)
Lemma searchFrom_least (sol : Board) (Hsol : solved sol) : forall idx b r,
  0 <= idx <= 81 -> length b = 81%nat -> extends b sol ->
  (forall k, 0 <= k < idx -> cell b k <> 0) ->
  searchFrom idx b = Some r ->
  (forall k, 0 <= k <= 80 -> cell r k = cell sol k) \/
  exists j, 0 <= j <= 80 /\ (forall k, 0 <= k < j -> cell r k = cell sol k) /\
            cell r j < cell sol j.
Proof.
  intros idx. remember (Z.to_nat (81 - idx)) as n eqn:Hn.
  revert idx Hn. induction n as [|n IH]; intros idx Hn b r Hidx Hlen Hext Hfilled Hs.
  - assert (idx = 81) as -> by lia. rewrite searchFrom_end in Hs. simplify_eq.
    left. intros k Hk. symmetry. apply Hext; [done|]. apply Hfilled. lia.
  - rewrite searchFrom_unfold in Hs by lia.
    destruct (cell b idx =? 0) eqn:Hc.
    + apply (firstSome_seqZ_least _ 9) in Hs as (v & Hv & Hfv & Hbefore).
      destruct (legal b v idx) eqn:Hlegal; [|done].
      pose proof (solved_digits sol idx Hsol ltac:(lia)) as Hd.
      assert (v <= cell sol idx) as Hle.
      { destruct (decide (v <= cell sol idx)) as [|Hgt]; [done|]. exfalso.
        specialize (Hbefore (cell sol idx) ltac:(lia)).
        rewrite solution_legal in Hbefore by (done || lia).
        destruct (searchFrom_complete sol Hsol (idx + 1)
                    (<[Z.to_nat idx := cell sol idx]> b)) as [r' Hr'];
          [lia|by rewrite length_insert|apply extends_insert; [done|lia|done]|].
        congruence. }
      destruct (decide (v = cell sol idx)) as [->|Hne].
      * apply (IH (idx + 1)) in Hfv; [done|lia|lia|by rewrite length_insert| |].
        -- apply extends_insert; [done|lia|done].
        -- intros k Hk. destruct (decide (k = idx)) as [->|Hki].
           ++ rewrite cell_insert_eq by lia. lia.
           ++ rewrite cell_insert_ne by lia. apply Hfilled. lia.
      * right. exists idx. split; [lia|].
        destruct (searchFrom_frame (idx + 1) (<[Z.to_nat idx := v]> b) r)
          as (_ & Hdelta & _); [lia|by rewrite length_insert|done|].
        split.
        -- intros k Hk. destruct (Hdelta k ltac:(lia)) as [Heq|(_ & ? & _)]; [|lia].
           rewrite Heq, cell_insert_ne by lia. symmetry.
           apply Hext; [lia|]. apply Hfilled. lia.
        -- destruct (Hdelta idx ltac:(lia)) as [Heq|(_ & ? & _)]; [|lia].
           rewrite Heq, cell_insert_eq by lia. lia.
    + apply (IH (idx + 1)) in Hs; [done|lia|lia|done|done|].
      intros k Hk. destruct (decide (k = idx)) as [->|Hki]; [lia|]. apply Hfilled. lia.
Qed.

(** X12. Which solution is found.  If the board has a solution, a run
    from index 0 with fuel 82 or more returns true with a solution of the
    board, and that solution comes first among all solutions when boards
    are compared cell by cell in index order: the candidate loop counts
    upwards and stops at the first success. *)
Theorem solveInner_finds_least_solution (fuel : nat) (b sol : Board) (c : Z) :
  length b = 81%nat -> solution b sol -> (82 <= fuel)%nat ->
  exists s', solveInner fuel 0 (mkState b c) = Ok (true, s') /\
             solution b (board s') /\ lexLe (board s') sol.
Proof.
  intros Hlen [Hsol Hext] Hfuel.
  destruct (solution_wellFormed b sol Hlen (conj Hsol Hext)) as [Hwf Hb].
  destruct (solveInner_refines fuel 0 b c Hlen ltac:(lia) ltac:(lia)) as [c' Hrun].
  destruct (searchFrom_complete sol Hsol 0 b ltac:(lia) Hlen Hext) as [r Hs].
  rewrite Hs in Hrun. exists (mkState r c'). split; [done|]. cbn [board].
  destruct (searchFrom_solution b r Hwf Hb Hs) as (_ & Hr & Hrext).
  split; [by split|].
  destruct (searchFrom_least sol Hsol 0 b r) as [Heq|Hlt]; [lia|done|done|lia|done| |].
  - left. apply cells_eq; [apply Hr|apply Hsol|done].
  - by right.
Qed.

Lemma solveInner_finds_least_solution_witness :
  length almostSolvedBoard = 81%nat /\ solution almostSolvedBoard solvedExampleBoard /\
  (82 <= 82)%nat /\
  exists s', solveInner 82 0 (mkState almostSolvedBoard 0) = Ok (true, s') /\
             solution almostSolvedBoard (board s') /\ lexLe (board s') solvedExampleBoard.
Proof.
  assert (length almostSolvedBoard = 81%nat) as Hlen by reflexivity.
  assert (solution almostSolvedBoard solvedExampleBoard) as Hsol
    by exact (proj1 almostSolvedBoard_unique).
  assert (82 <= 82)%nat as Hfuel by lia.
  split; [exact Hlen|]. split; [exact Hsol|]. split; [exact Hfuel|].
  exact (solveInner_finds_least_solution 82 almostSolvedBoard solvedExampleBoard 0
           Hlen Hsol Hfuel).
Defined.

(** X13. The sequential [Solve] is a decision procedure.  On a board of
    the data model whose filled cells do not clash, with fuel 82 or more
    and whatever the counter held before, [Solve] returns, and either
    reports a full solution of the input together with the number of
    checks made, or reports failure, leaves the board as it was, and the
    board has no solution. *)
Theorem Solve_correct (fuel : nat) (b : Board) (c : Z) :
  wellFormed b -> consistent b -> (82 <= fuel)%nat ->
  exists m s', Solve fuel (mkState b c) = Ok (m, s') /\
    ((m = FoundAfter (opsCnt s') (board s') /\ solution b (board s') /\ full (board s')) \/
     (m = NotFoundAfter (opsCnt s') /\ board s' = b /\ forall sol, ~ solution b sol)).
Proof.
  intros Hwf Hcons Hfuel. pose proof Hwf as [Hlen _].
  destruct (solveInner_refines fuel 0 b 0 Hlen ltac:(lia) ltac:(lia)) as [c' Hrun].
  unfold Solve, bind, resetOpsCnt, report. cbn [board]. rewrite Hrun.
  destruct (searchFrom 0 b) as [r|] eqn:Hs.
  - eexists _, _. split; [done|]. left. cbn [board opsCnt]. split; [done|].
    destruct (searchFrom_solution b r Hwf (consistent_noClash b Hcons) Hs)
      as (Hfull & Hsolved & Hext).
    split; [by split|done].
  - eexists _, _. split; [done|]. right. cbn [board opsCnt]. split; [done|]. split; [done|].
    intros sol [Hsol Hext].
    destruct (searchFrom_complete sol Hsol 0 b ltac:(lia) Hlen Hext) as [r Hr]. congruence.
Qed.

Lemma Solve_correct_witness :
  wellFormed almostSolvedBoard /\ consistent almostSolvedBoard /\ (82 <= 82)%nat /\
  exists m s', Solve 82 (mkState almostSolvedBoard 5) = Ok (m, s') /\
    ((m = FoundAfter (opsCnt s') (board s') /\ solution almostSolvedBoard (board s') /\
      full (board s')) \/
     (m = NotFoundAfter (opsCnt s') /\ board s' = almostSolvedBoard /\
      forall sol, ~ solution almostSolvedBoard sol)).
Proof.
  assert (wellFormed almostSolvedBoard) as Hwf.
  { split; [reflexivity|]. by_decide. }
  assert (consistent almostSolvedBoard) as Hcons by by_decide.
  assert (82 <= 82)%nat as Hfuel by lia.
  split; [exact Hwf|]. split; [exact Hcons|]. split; [exact Hfuel|].
  exact (Solve_correct 82 almostSolvedBoard 5 Hwf Hcons Hfuel).
Defined.

(** X14. A filled tail.  If every cell from [idx] on is filled, a call
    from [idx] returns true with one unit of fuel, writes no cell and
    makes no check, whatever the cells before [idx] hold and whether or
    not the filled cells obey the rules. *)
Theorem solveInner_filled_tail (fuel : nat) (s : State) (idx : Z) :
  length (board s) = 81%nat -> 0 <= idx <= 81 ->
  (forall j, idx <= j <= 80 -> cell (board s) j <> 0) ->
  solveInner (S fuel) idx s = Ok (true, s).
Proof.
  intros Hlen Hidx Htail. rewrite solveInner_S.
  destruct (findNext_spec idx s Hlen Hidx) as (j & -> & Hj & _ & Hat).
  destruct (decide (j = 81)) as [->|Hne]; [done|].
  exfalso. apply (Htail j); [lia|]. apply Hat. lia.
Qed.

Lemma solveInner_filled_tail_witness :
  length (board (mkState tailFilledBoard 0)) = 81%nat /\ 0 <= 41 <= 81 /\
  (forall j, 41 <= j <= 80 -> cell (board (mkState tailFilledBoard 0)) j <> 0) /\
  solveInner 1 41 (mkState tailFilledBoard 0) = Ok (true, mkState tailFilledBoard 0).
Proof.
  assert (length (board (mkState tailFilledBoard 0)) = 81%nat) as Hlen by reflexivity.
  assert (0 <= 41 <= 81) as Hidx by lia.
  assert (forall j, 41 <= j <= 80 -> cell (board (mkState tailFilledBoard 0)) j <> 0)
    as Htail.
  { assert (Forall (fun j => cell tailFilledBoard j <> 0) (seqZ 41 40)) as HF by by_decide.
    intros j Hj. rewrite Forall_forall in HF. apply HF, elem_of_seqZ. lia. }
  split; [exact Hlen|]. split; [exact Hidx|]. split; [exact Htail|].
  exact (solveInner_filled_tail 0 (mkState tailFilledBoard 0) 41 Hlen Hidx Htail).
Defined.

(** X15. Failure means there is no solution.  On any 81-cell board,
    well-formed and consistent or not, if a run from index 0 returns
    false then no solved board extends the input. *)
Theorem solveInner_failure_unsolvable (fuel : nat) (b : Board) (c : Z) (s' : State) :
  length b = 81%nat ->
  solveInner fuel 0 (mkState b c) = Ok (false, s') ->
  forall sol, ~ solution b sol.
Proof.
  intros Hlen Hrun sol [Hsol Hext].
  destruct (solveInner_search fuel 0 b c false s' Hlen ltac:(lia) Hrun)
    as [[? _]|(_ & Hs & _)]; [done|].
  destruct (searchFrom_complete sol Hsol 0 b ltac:(lia) Hlen Hext) as [r Hr]. congruence.
Qed.

Lemma solveInner_failure_unsolvable_witness :
  length stuckBoard = 81%nat /\
  solveInner 82 0 (mkState stuckBoard 0) = Ok (false, mkState stuckBoard 9) /\
  forall sol, ~ solution stuckBoard sol.
Proof.
  assert (length stuckBoard = 81%nat) as Hlen by reflexivity.
  assert (solveInner 82 0 (mkState stuckBoard 0) = Ok (false, mkState stuckBoard 9))
    as Hrun by (vm_compute; reflexivity).
  split; [exact Hlen|]. split; [exact Hrun|].
  exact (solveInner_failure_unsolvable 82 stuckBoard 0 _ Hlen Hrun).
Defined.

(** ** The parallel [Solve] beyond the claims *)

Lemma first_empty_exists (b : Board) :
  length b = 81%nat -> ~ full b ->
  exists i, 0 <= i <= 80 /\ cell b i = 0 /\ forall k, 0 <= k < i -> cell b k <> 0.
Proof.
  intros Hlen Hnf.
  destruct (findNext_spec 0 (mkState b 0) Hlen ltac:(lia)) as (j & _ & Hj & Hbefore & Hat).
  cbn [board] in *. destruct (decide (j = 81)) as [->|Hne].
  - exfalso. apply Hnf. intros i Hi. apply Hbefore. lia.
  - exists j. split; [lia|]. split; [apply Hat; lia|]. intros k Hk. apply Hbefore. lia.
Qed.




(** X17. Every message of the parallel [Solve] is right, whichever task
    the scheduler lets win.  On a board of the data model whose filled
    cells do not clash and with fuel 82 or more: "all set already" is
    printed only for a full board, a printed result is a full solution of
    the input, and "not found" is printed only if the input has no
    solution. *)
Theorem SolveParallel_correct (fuel : nat) (b : Board) (m : Message) :
  wellFormed b -> consistent b -> (82 <= fuel)%nat ->
  SolveParallel fuel b m ->
  (m = AllSetAlready b /\ full b) \/
  (exists r, m = Found r /\ solution b r /\ full r) \/
  (m = NotFound /\ forall sol, ~ solution b sol).
Proof.
  intros Hwf Hcons Hfuel Hm. pose proof Hwf as [Hlen _].
  pose proof (consistent_noClash b Hcons) as Hb.
  destruct (findNext_spec 0 (mkState b 0) Hlen ltac:(lia)) as (i & Hscan & Hi & Hbefore & Hat).
  cbn [board] in *. destruct (decide (i = 81)) as [->|Hne].
  - left. assert (full b) as Hfull by (intros k Hk; apply Hbefore; lia).
    split; [|done].
    destruct Hm as [s _|idx s ts s' Hscan' Hne|idx s ts Hscan' Hne]; [done|..];
      rewrite Hscan in Hscan'; by simplify_eq.
  - right. specialize (Hat ltac:(lia)).
    assert (forall k, 0 <= k < i -> cell b k <> 0) as Hfirst by (intros k Hk; apply Hbefore; lia).
    apply (SolveParallel_spec fuel b i m Hlen ltac:(lia) Hat Hfirst ltac:(lia)) in Hm
      as [(v & r & Hv & Hlegal & Hs & ->)|[-> Hnone]].
    + left. exists r. split; [done|].
      pose proof (branch_solution b i v r Hwf Hb ltac:(lia) Hat Hfirst Hv Hlegal Hs) as Hsol.
      split; [done|]. intros k Hk. pose proof (solved_digits r k (proj1 Hsol) Hk). lia.
    + right. split; [done|]. intros sol [Hsol Hext].
      pose proof (solved_digits sol i Hsol ltac:(lia)) as Hd.
      pose proof (solution_legal b sol i Hlen ltac:(lia) Hat Hsol Hext) as Hlegal.
      specialize (Hnone (cell sol i) Hd Hlegal).
      destruct (searchFrom_complete sol Hsol (i + 1) (<[Z.to_nat i := cell sol i]> b))
        as [r Hr]; [lia|by rewrite length_insert|apply extends_insert; [done|lia|done]|].
      congruence.
Qed.

(** A run of the parallel [Solve] on [almostSolvedBoard]: one task is
    started, for the value 8 at index 2, and it succeeds. *)
Lemma almostSolvedBoard_parallel_run :
  SolveParallel 82 almostSolvedBoard (Found solvedExampleBoard).
Proof.
  assert (findNextFieldNotSetAlready 0 (mkState almostSolvedBoard 0)
          = Ok (2, mkState almostSolvedBoard 0)) as Hscan by (vm_compute; reflexivity).
  assert (launch 82 almostSolvedBoard 2 (seqZ 1 9)
          = Ok [Ok (true, mkState solvedExampleBoard 14)]) as Hl
    by (vm_compute; reflexivity).
  exact (Solve_result 82 almostSolvedBoard 2 _ _ (mkState solvedExampleBoard 14)
           Hscan ltac:(lia) Hl ltac:(left)).
Qed.

Lemma SolveParallel_correct_witness :
  wellFormed almostSolvedBoard /\ consistent almostSolvedBoard /\ (82 <= 82)%nat /\
  SolveParallel 82 almostSolvedBoard (Found solvedExampleBoard) /\
  ((Found solvedExampleBoard = AllSetAlready almostSolvedBoard /\ full almostSolvedBoard) \/
   (exists r, Found solvedExampleBoard = Found r /\ solution almostSolvedBoard r /\ full r) \/
   (Found solvedExampleBoard = NotFound /\ forall sol, ~ solution almostSolvedBoard sol)).
Proof.
  assert (wellFormed almostSolvedBoard) as Hwf.
  { split; [reflexivity|]. by_decide. }
  assert (consistent almostSolvedBoard) as Hcons by by_decide.
  assert (82 <= 82)%nat as Hfuel by lia.
  pose proof almostSolvedBoard_parallel_run as Hm.
  split; [exact Hwf|]. split; [exact Hcons|]. split; [exact Hfuel|]. split; [exact Hm|].
  exact (SolveParallel_correct 82 almostSolvedBoard _ Hwf Hcons Hfuel Hm).
Defined.

(** X18. The two variants agree.  On an 81-cell board with an empty
    cell and with fuel 82 or more, the board on which the sequential
    backtracker succeeds is one of the boards the parallel [Solve] can
    print: it is the result of the task for the least accepted value that
    leads to a solution. *)
Theorem sequential_result_is_a_parallel_result (fuel : nat) (b : Board) (c : Z) (s' : State) :
  length b = 81%nat -> ~ full b -> (82 <= fuel)%nat ->
  solveInner fuel 0 (mkState b c) = Ok (true, s') ->
  SolveParallel fuel b (Found (board s')).
Proof.
  intros Hlen Hnf Hfuel Hrun.
  destruct (first_empty_exists b Hlen Hnf) as (i & Hi & Hempty & Hfirst).
  destruct (solveInner_search fuel 0 b c true s' Hlen ltac:(lia) Hrun)
    as [[_ Hs]|[? _]]; [|done].
  rewrite (searchFrom_first_empty b i Hlen Hi Hempty Hfirst) in Hs.
  apply firstSome_Some in Hs as (v & Hv & Hs). apply elem_of_seqZ in Hv.
  destruct (legal b v i) eqn:Hlegal; [|done].
  apply (SolveParallel_spec fuel b i _ Hlen Hi Hempty Hfirst ltac:(lia)).
  left. exists v, (board s'). split; [lia|done].
Qed.

Lemma sequential_result_is_a_parallel_result_witness :
  length almostSolvedBoard = 81%nat /\ ~ full almostSolvedBoard /\ (82 <= 82)%nat /\
  solveInner 82 0 (mkState almostSolvedBoard 0) = Ok (true, mkState solvedExampleBoard 18) /\
  SolveParallel 82 almostSolvedBoard (Found (board (mkState solvedExampleBoard 18))).
Proof.
  assert (length almostSolvedBoard = 81%nat) as Hlen by reflexivity.
  assert (~ full almostSolvedBoard) as Hnf.
  { intros Hfull. apply (Hfull 2); [lia|reflexivity]. }
  assert (82 <= 82)%nat as Hfuel by lia.
  assert (solveInner 82 0 (mkState almostSolvedBoard 0)
          = Ok (true, mkState solvedExampleBoard 18)) as Hrun by (vm_compute; reflexivity).
  split; [exact Hlen|]. split; [exact Hnf|]. split; [exact Hfuel|]. split; [exact Hrun|].
  exact (sequential_result_is_a_parallel_result 82 almostSolvedBoard 0 _
           Hlen Hnf Hfuel Hrun).
Defined.

Lemma launch_none fuel b idx : forall vals,
  length b = 81%nat -> 0 <= idx <= 80 ->
  (forall v, v ∈ vals -> legal b v idx = false) ->
  launch fuel b idx vals = Ok [].
Proof.
  intros vals Hlen Hidx. induction vals as [|v vals IH]; intros Hnone; [done|].
  cbn [launch]. rewrite valuePossibleAt_legal by done. cbn [board].
  rewrite IH by (intros v' Hv'; apply Hnone; by right).
  rewrite (Hnone v) by left. done.
Qed.

(** A candidate loop in which no value is accepted only counts. *)
Lemma forEach_tryValue_none (rec : Z -> M bool) b i : forall vals c,
  length b = 81%nat -> 0 <= i <= 80 ->
  (forall v, v ∈ vals -> legal b v i = false) ->
  0 <= c -> c + Z.of_nat (length vals) <= 1000 ->
  forEach vals (tryValue rec i) (mkState b c)
  = Ok (None, mkState b (c + Z.of_nat (length vals))).
Proof.
  induction vals as [|v vals IH]; intros c Hlen Hi Hnone Hc Hbound.
  - simpl. unfold ret. do 3 f_equal. lia.
  - cbn [forEach]. unfold bind at 1. unfold tryValue at 1. unfold bind at 1.
    rewrite valuePossibleAt_legal by done. cbn [board opsCnt].
    rewrite (Hnone v) by left. cbn [length] in *.
    rewrite add_small by lia. unfold ret.
    rewrite IH; [do 3 f_equal; lia|done|done| |lia|lia].
    intros v' Hv'. apply Hnone. by right.
Qed.

(** X19. A first empty cell with no candidate.  If every digit 1..9
    already occurs in the row, column or block of the first empty cell,
    the parallel [Solve] starts no task, the wait group is done at once
    and the only message is "not found"; the sequential [Solve] reports
    failure after exactly nine checks, with one unit of fuel, and leaves
    the board as it was. *)
Theorem Solve_zero_candidates (fuel : nat) (b : Board) (c i : Z) :
  length b = 81%nat -> 0 <= i <= 80 -> cell b i = 0 ->
  (forall k, 0 <= k < i -> cell b k <> 0) ->
  (forall v, 1 <= v <= 9 -> inRow b v i \/ inColumn b v i \/ inBlock b v i) ->
  launch fuel b i (seqZ 1 9) = Ok [] /\
  (forall m, SolveParallel fuel b m <-> m = NotFound) /\
  Solve (S fuel) (mkState b c) = Ok (NotFoundAfter 9, mkState b 9).
Proof.
  intros Hlen Hi Hempty Hfirst Hall.
  assert (forall v, v ∈ seqZ 1 9 -> legal b v i = false) as Hnone.
  { intros v Hv. apply elem_of_seqZ in Hv.
    apply legal_false_iff; [done..|]. apply Hall. lia. }
  assert (launch fuel b i (seqZ 1 9) = Ok []) as Hlaunch by by apply launch_none.
  pose proof (findNext_at b 0 i Hlen Hi Hempty Hfirst) as Hscan.
  split; [done|]. split.
  - intros m. split.
    + intros Hm. destruct Hm as [s Hs|j s ts s' Hs Hne Hts Hin|j s ts Hs Hne Hts _];
        rewrite Hscan in Hs; simplify_eq; [lia| |done].
      rewrite Hlaunch in Hts. simplify_eq. by apply elem_of_nil in Hin.
    + intros ->. by apply (Solve_done fuel b i (mkState b 0) [] Hscan ltac:(lia) Hlaunch).
  - unfold Solve, bind, resetOpsCnt. cbn [board].
    rewrite solveInner_S, Hscan.
    destruct (i =? 81) eqn:E; [lia|].
    rewrite (forEach_tryValue_none _ b i); [|done|done|done|lia|by vm_compute].
    rewrite store_in_range by (cbn [board]; lia). cbn [board opsCnt].
    rewrite <- Hempty at 1. rewrite insert_cell_id by lia. done.
Qed.

Lemma Solve_zero_candidates_witness :
  length stuckBoard = 81%nat /\ 0 <= 8 <= 80 /\ cell stuckBoard 8 = 0 /\
  (forall k, 0 <= k < 8 -> cell stuckBoard k <> 0) /\
  (forall v, 1 <= v <= 9 ->
     inRow stuckBoard v 8 \/ inColumn stuckBoard v 8 \/ inBlock stuckBoard v 8) /\
  launch 1 stuckBoard 8 (seqZ 1 9) = Ok [] /\
  (forall m, SolveParallel 1 stuckBoard m <-> m = NotFound) /\
  Solve 2 (mkState stuckBoard 7) = Ok (NotFoundAfter 9, mkState stuckBoard 9).
Proof.
  assert (length stuckBoard = 81%nat) as Hlen by reflexivity.
  assert (0 <= 8 <= 80) as Hi by lia.
  assert (cell stuckBoard 8 = 0) as Hempty by reflexivity.
  assert (forall k, 0 <= k < 8 -> cell stuckBoard k <> 0) as Hfirst.
  { assert (Forall (fun k => cell stuckBoard k <> 0) (seqZ 0 8)) as HF by by_decide.
    intros k Hk. rewrite Forall_forall in HF. apply HF, elem_of_seqZ. lia. }
  assert (forall v, 1 <= v <= 9 ->
            inRow stuckBoard v 8 \/ inColumn stuckBoard v 8 \/ inBlock stuckBoard v 8)
    as Hall.
  { assert (Forall (fun v => legal stuckBoard v 8 = false) (seqZ 1 9)) as HF by by_decide.
    intros v Hv. apply legal_false_iff; [exact Hlen|exact Hi|].
    rewrite Forall_forall in HF. apply HF, elem_of_seqZ. lia. }
  split; [exact Hlen|]. split; [exact Hi|]. split; [exact Hempty|].
  split; [exact Hfirst|]. split; [exact Hall|].
  exact (Solve_zero_candidates 1 stuckBoard 7 8 Hlen Hi Hempty Hfirst Hall).
Defined.

(** X20. The clone a task works on.  [NewBoard()] followed by [copy]
    always gives an 81-cell board, whatever the length of the source, and
    each of its cells holds what the source holds there (0 where the
    source is shorter): a task starts from the caller's cells but writes
    to a slice of its own. *)
Theorem copy_NewBoard_cells (b : Board) (i : Z) :
  0 <= i <= 80 ->
  length (copy NewBoard b) = 81%nat /\ cell (copy NewBoard b) i = cell b i.
Proof.
  intros Hi. split.
  { unfold copy, NewBoard. rewrite length_app, length_take, length_drop, length_replicate. lia. }
  unfold cell, copy, NewBoard. rewrite length_replicate.
  destruct (decide (Z.to_nat i < length b)%nat) as [Hlt|Hge].
  - rewrite lookup_app_l by (rewrite length_take; lia).
    by rewrite lookup_take_lt by lia.
  - rewrite lookup_app_r by (rewrite length_take; lia).
    rewrite length_take, (lookup_ge_None_2 b) by lia.
    rewrite lookup_drop, lookup_replicate_2; [done|lia].
Qed.

Lemma copy_NewBoard_cells_witness :
  0 <= 1 <= 80 /\
  length (copy NewBoard shortBoard) = 81%nat /\
  cell (copy NewBoard shortBoard) 1 = cell shortBoard 1.
Proof.
  assert (0 <= 1 <= 80) as Hi by lia.
  split; [exact Hi|].
  exact (copy_NewBoard_cells shortBoard 1 Hi).
Defined.

(** ** [String] on a short board *)

Lemma String_loop_panic s i : forall vals sb,
  i ∈ vals -> i < 0 \/ Z.of_nat (length (board s)) <= i ->
  String_loop vals sb s = Panic.
Proof.
  induction vals as [|j vals IH]; intros sb Hin Hout; [by apply elem_of_nil in Hin|].
  cbn [String_loop]. unfold bind.
  destruct (load j s) as [[c s1]| |] eqn:Hload; [|done|].
  - apply elem_of_cons in Hin as [->|Hin].
    + by rewrite load_out_of_range in Hload.
    + unfold load in Hload. destruct (j <? 0); [done|].
      destruct (board s !! Z.to_nat j); [|done]. injection Hload as _ <-.
      by apply IH.
  - unfold load in Hload. destruct (j <? 0); [done|]. by destruct (board s !! Z.to_nat j).
Qed.

(** X21. [String] needs all 81 cells.  On a board of fewer than 81
    cells, which the exported type [Board] allows, [String] panics with an
    index out of range instead of rendering the cells there are. *)
Theorem String_short_board (s : State) :
  (length (board s) < 81)%nat -> String_ s = Panic.
Proof.
  intros Hlen. unfold String_, bind.
  rewrite (String_loop_panic s (Z.of_nat (length (board s)))); [done| |lia].
  apply elem_of_seqZ. lia.
Qed.

Lemma String_short_board_witness :
  (length (board (mkState shortBoard 0)) < 81)%nat /\
  String_ (mkState shortBoard 0) = Panic.
Proof.
  assert (length (board (mkState shortBoard 0)) < 81)%nat as Hlen by (simpl; lia).
  split; [exact Hlen|].
  exact (String_short_board (mkState shortBoard 0) Hlen).
Defined.

(** ** [String] loses nothing *)

Lemma String_render (b : Board) (c : Z) :
  wellFormed b -> String_ (mkState b c) = Ok (render b, mkState b c).
Proof.
  intros Hwf. unfold String_, bind. rewrite String_loop_spec; [|done|].
  - unfold ret. cbn [board]. vm_compute. reflexivity.
  - apply Forall_seqZ. unfold inRange. lia.
Qed.

Lemma digitsOf_app (s1 s2 : string) : digitsOf (s1 +:+ s2) = digitsOf s1 ++ digitsOf s2.
Proof.
  induction s1 as [|a s1 IH]; [done|].
  change (digitsOf (String a (s1 +:+ s2)) = digitsOf (String a s1) ++ digitsOf s2).
  cbn [digitsOf]. rewrite IH. by destruct (digitOf a).
Qed.

Lemma digitsOf_cellText d : 0 <= d <= 9 -> digitsOf (cellText d) = [d].
Proof.
  intros Hd.
  assert (d = 0 \/ d = 1 \/ d = 2 \/ d = 3 \/ d = 4 \/ d = 5 \/ d = 6 \/ d = 7 \/
          d = 8 \/ d = 9) as Hcases by lia.
  repeat (destruct Hcases as [->|Hcases]; [reflexivity|]). by subst.
Qed.

Lemma digitsOf_cells (b : Board) (Hwf : wellFormed b) : forall u,
  Forall inRange u ->
  digitsOf (String.concat "" ((fun i => cellText (cell b i)) <$> u)) = cell b <$> u.
Proof.
  induction u as [|i u IH]; intros Hu; [done|].
  apply Forall_cons in Hu as [Hi Hu]. unfold inRange in Hi.
  rewrite !fmap_cons.
  transitivity (digitsOf (cellText (cell b i)
                          +:+ String.concat "" ((fun i => cellText (cell b i)) <$> u))).
  - destruct u; [|done]. cbn [fmap list_fmap String.concat]. by rewrite append_empty_r.
  - rewrite digitsOf_app, IH by done.
    by rewrite digitsOf_cellText by (apply wellFormed_cell; [done|lia]).
Qed.

Lemma digitsOf_rows (b : Board) (Hwf : wellFormed b) : forall us,
  Forall (Forall inRange) us ->
  digitsOf (String.concat "" (rowText b <$> us)) = cell b <$> concat us.
Proof.
  induction us as [|u us IH]; intros Hus; [done|].
  apply Forall_cons in Hus as [Hu Hus].
  rewrite fmap_cons. cbn [concat]. rewrite fmap_app. rewrite <- IH by done.
  rewrite <- (digitsOf_cells b Hwf u Hu).
  transitivity (digitsOf (rowText b u +:+ String.concat "" (rowText b <$> us))).
  - destruct us; [|done]. cbn [fmap list_fmap String.concat]. by rewrite append_empty_r.
  - rewrite digitsOf_app. unfold rowText. by rewrite digitsOf_app.
Qed.

Lemma cells_seqZ (b : Board) : length b = 81%nat -> cell b <$> seqZ 0 81 = b.
Proof.
  intros Hlen. apply list_eq. intros n. rewrite list_lookup_fmap.
  destruct (decide (n < 81)%nat) as [Hn|Hn].
  - rewrite (lookup_seqZ_lt 0 81 n) by lia. cbn [fmap option_fmap option_map].
    rewrite Z.add_0_l, <- cell_lookup by lia. by rewrite Nat2Z.id.
  - rewrite (lookup_seqZ_ge 0 81 n) by lia. by rewrite lookup_ge_None_2 by lia.
Qed.

Lemma digitsOf_render (b : Board) : wellFormed b -> digitsOf (render b) = b.
Proof.
  intros Hwf. unfold render. rewrite digitsOf_app, digitsOf_rows; [|done|by_decide].
  replace (concat rows) with (seqZ 0 81) by (vm_compute; reflexivity).
  rewrite cells_seqZ by apply Hwf. apply app_nil_r.
Qed.

(** X22. The rendering determines the board.  On boards of the data
    model [String] returns, changes nothing, and two boards with the same
    rendering are the same board: the 81 digits can be read back from the
    text in order. *)
Theorem String_injective (b1 b2 : Board) (c1 c2 : Z) (out1 out2 : string) (s1 s2 : State) :
  wellFormed b1 -> wellFormed b2 ->
  String_ (mkState b1 c1) = Ok (out1, s1) -> String_ (mkState b2 c2) = Ok (out2, s2) ->
  s1 = mkState b1 c1 /\ s2 = mkState b2 c2 /\ (out1 = out2 <-> b1 = b2).
Proof.
  intros Hwf1 Hwf2. rewrite !String_render by done. intros [= <- <-] [= <- <-].
  split; [done|]. split; [done|]. split; [|by intros ->].
  intros Heq. by rewrite <- (digitsOf_render b1), <- (digitsOf_render b2), Heq.
Qed.

Lemma String_injective_witness :
  wellFormed exampleBoard /\ wellFormed solvedExampleBoard /\
  String_ (mkState exampleBoard 0) = Ok (render exampleBoard, mkState exampleBoard 0) /\
  String_ (mkState solvedExampleBoard 3)
  = Ok (render solvedExampleBoard, mkState solvedExampleBoard 3) /\
  mkState exampleBoard 0 = mkState exampleBoard 0 /\
  mkState solvedExampleBoard 3 = mkState solvedExampleBoard 3 /\
  (render exampleBoard = render solvedExampleBoard <-> exampleBoard = solvedExampleBoard).
Proof.
  assert (wellFormed exampleBoard) as Hwf1.
  { split; [reflexivity|]. by_decide. }
  assert (wellFormed solvedExampleBoard) as Hwf2.
  { split; [reflexivity|]. by_decide. }
  assert (String_ (mkState exampleBoard 0)
          = Ok (render exampleBoard, mkState exampleBoard 0)) as Hrun1
    by (vm_compute; reflexivity).
  assert (String_ (mkState solvedExampleBoard 3)
          = Ok (render solvedExampleBoard, mkState solvedExampleBoard 3)) as Hrun2
    by (vm_compute; reflexivity).
  split; [exact Hwf1|]. split; [exact Hwf2|]. split; [exact Hrun1|]. split; [exact Hrun2|].
  exact (String_injective exampleBoard solvedExampleBoard 0 3 _ _ _ _
           Hwf1 Hwf2 Hrun1 Hrun2).
Defined.

(** ** The scan outside the grid *)

Lemma findNext_short_loop fuel s : forall idx,
  0 <= idx <= Z.of_nat (length (board s)) -> (length (board s) < 81)%nat ->
  (Z.to_nat (Z.of_nat (length (board s)) - idx) <= fuel)%nat ->
  (forall k, idx <= k < Z.of_nat (length (board s)) -> cell (board s) k <> 0) ->
  findNextFieldNotSetAlready_loop fuel idx s = Panic.
Proof.
  induction fuel as [|fuel IH]; intros idx Hidx Hlen Hfuel Hfilled;
    rewrite findNext_loop_unfold; (destruct (idx <? 81) eqn:Hlt; [|lia]); unfold bind.
  - rewrite load_out_of_range; [done|lia].
  - destruct (decide (idx = Z.of_nat (length (board s)))) as [->|Hne].
    + rewrite load_out_of_range; [done|lia].
    + rewrite load_in_range by lia.
      destruct (cell (board s) idx =? 0) eqn:Hc; [apply Z.eqb_eq in Hc; by apply Hfilled in Hc; [|lia]|].
      cbn [negb]. rewrite add_small by lia. apply IH; [lia|done|lia|].
      intros k Hk. apply Hfilled. lia.
Qed.

(** X23. The scan at and beyond the edges.  At a negative index the
    scan panics (it reads [b[idx]]); at an index of 81 or more it reads
    nothing and returns the index itself, so 82 comes back as 82 and not
    as the value 81 that means "all set". *)
Theorem findNext_outside (idx : Z) (s : State) :
  idx < 0 \/ 81 <= idx ->
  findNextFieldNotSetAlready idx s = (if idx <? 0 then Panic else Ok (idx, s)).
Proof.
  intros Hout. destruct (idx <? 0) eqn:E.
  - apply findNext_negative. lia.
  - apply findNext_past_end. lia.
Qed.

Lemma findNext_outside_witness :
  (82 < 0 \/ 81 <= 82) /\
  findNextFieldNotSetAlready 82 (mkState exampleBoard 0)
  = (if 82 <? 0 then Panic else Ok (82, mkState exampleBoard 0)).
Proof.
  assert (82 < 0 \/ 81 <= 82) as Hout by (right; lia).
  split; [exact Hout|].
  exact (findNext_outside 82 (mkState exampleBoard 0) Hout).
Defined.

(** X24. The scan on a short board.  On a board of fewer than 81 cells
    none of which is empty, the scan from 0 runs off the end of the slice
    and panics; it does not report that all cells are set. *)
Theorem findNext_short_board (s : State) :
  (length (board s) < 81)%nat -> Forall (fun v => v <> 0) (board s) ->
  findNextFieldNotSetAlready 0 s = Panic.
Proof.
  intros Hlen Hfilled. unfold findNextFieldNotSetAlready.
  apply findNext_short_loop; [lia|done|lia|].
  intros k Hk. rewrite Forall_forall in Hfilled. apply Hfilled.
  unfold cell. destruct (board s !! Z.to_nat k) as [v|] eqn:Hl.
  - by apply list_elem_of_lookup_2 in Hl.
  - apply lookup_ge_None_1 in Hl. lia.
Qed.

Lemma findNext_short_board_witness :
  (length (board (mkState shortBoard 0)) < 81)%nat /\
  Forall (fun v => v <> 0) (board (mkState shortBoard 0)) /\
  findNextFieldNotSetAlready 0 (mkState shortBoard 0) = Panic.
Proof.
  assert (length (board (mkState shortBoard 0)) < 81)%nat as Hlen by (simpl; lia).
  assert (Forall (fun v => v <> 0) (board (mkState shortBoard 0))) as Hfilled.
  { cbn [board]. unfold shortBoard. repeat constructor; discriminate. }
  split; [exact Hlen|]. split; [exact Hfilled|].
  exact (findNext_short_board (mkState shortBoard 0) Hlen Hfilled).
Defined.
